(** * Pan detection and grouping pipeline (video-to-panoramas/lib.py)

    A shallow embedding of [is_horizontal_pan], [validate_panorama_quality],
    the group-building loops and the export/stitch loop of
    [detect_pan_groups_from_video], together with the properties the
    specification states about them.

    Conventions of the embedding:
    - Python [float] values are IEEE binary64 doubles (the primitive type
      [float]): every operation rounds as the source's does, in the source's
      order, and infinities, signed zeros and NaN are values of the model.
      The entries of a motion summary and the numeric thresholds of [cfg]
      are doubles. Integers that the source divides (image sizes, pixel
      counts) are converted to the nearest double first, which is exact
      below [2^53].
    - Python exceptions are explicit: fallible code lives in [result].
    - List positions (indices into [sampled] and [pair_metrics]) are [nat];
      other Python integers are [Z].
    - OpenCV, storage and string formatting are external capabilities, taken
      as Section variables. *)

From Stdlib Require Import QArith.
From stdpp Require Import base option list sorting strings gmap.
From Equations Require Import Equations.
From Stdlib Require Import Floats.
From Stdlib Require Import Lia.

#[local] Set Warnings "-inexact-float".

Local Open Scope Z_scope.

(** ** Exceptions and the error monad *)

Inductive py_exception : Type :=
| ZeroDivisionError
| TypeError
| IndexError
| RuntimeError (msg : string)
| ExternalError (msg : string).

Inductive result (A : Type) : Type :=
| Ok (a : A)
| Err (e : py_exception).
Arguments Ok {A} a.
Arguments Err {A} e.

#[global] Instance result_ret : MRet result := fun A a => Ok a.

#[global] Instance result_bind : MBind result := fun A B k r =>
  match r with
  | Ok a => k a
  | Err e => Err e
  end.

(** ** Python numerics on doubles *)

(** [x / y] on floats: raises on a zero divisor of either sign, and only
    then (a NaN divisor gives NaN). *)
Definition py_truediv (x y : float) : result float :=
  if (y =? 0)%float then Err ZeroDivisionError else Ok (x / y)%float.

(** Builtin [min(a, b)] with two positional arguments: the first argument is
    kept unless the second compares strictly below it (so a NaN first
    argument is kept). *)
Definition py_min (a b : float) : float := if (b <? a)%float then b else a.

Definition py_abs (x : float) : float := PrimFloat.abs x.

(** Conversion of an integer to the nearest double (ties to even), as
    Python's [float(n)] and numpy's cast do. *)
Definition float_of_Z (z : Z) : float :=
  SF2Prim (binary_normalize prec emax z 0 false).

(** ** Data model *)

(** The dict returned by [pair_motion_metrics]. *)
Record MotionSummary : Type := mkSummary {
  H : list (list float);
  inlier_ratio : float;
  median_u : float;
  median_v : float;
  resid : float;
  scale : float
}.

(** The merged configuration dict [cfg]. The two keys read with
    [cfg.get(key, default)] have no default entry and may be missing. *)
Record Config : Type := mkConfig {
  sample_every : Z;
  min_group_len : Z;
  sharp_thr : float;
  feature : string;
  tau_inliers : float;
  tau_v : float;
  tau_u_min : float;
  tau_u_max : float;
  tau_scale : float;
  tau_parallax : float;
  export_overlap_target : float;
  jpeg_quality : Z;
  stitch : bool;
  stitch_warper : string;
  stitch_warper_scale : float;
  export_all_in_group : bool;
  min_pano_aspect_ratio : option float;
  max_black_border_percent : option float
}.

(** ** Pan classifier *)

(** The conjunction [ok] of the five tests, each a comparison of doubles;
    [scale - 1.0] is rounded before its absolute value is compared. *)
Definition pan_ok (m : MotionSummary) (cfg : Config) : bool :=
  (tau_inliers cfg <=? inlier_ratio m)%float
  && (py_abs (median_v m) <=? tau_v cfg)%float
  && ((tau_u_min cfg <=? py_abs (median_u m))%float
      && (py_abs (median_u m) <=? tau_u_max cfg)%float)
  && (py_abs (scale m - 1) <=? tau_scale cfg)%float
  && (resid m <=? tau_parallax cfg)%float.

(** The tests are evaluated first, then the score, whose three divisions
    can raise; the sum is taken from left to right. *)
Definition is_horizontal_pan (m : option MotionSummary) (cfg : Config)
  : result (bool * float) :=
  match m with
  | None => Ok (false, 0%float)
  | Some m =>
    let ok := pan_ok m cfg in
    rv ← py_truediv (py_abs (median_v m)) (tau_v cfg);
    rs ← py_truediv (py_abs (scale m - 1)) (tau_scale cfg);
    rp ← py_truediv (resid m) (tau_parallax cfg);
    let score :=
      (1.5 * inlier_ratio m
       + 0.6 * (1 - py_min rv 1)
       + 0.4 * (1 - py_min rs 1)
       + 0.6 * (1 - py_min rp 1))%float in
    Ok (ok, score)
  end.

(** The score formula as the specification writes it,
    [1.5*inlier_ratio + 0.6*(1 - min(|median_v|/tau_v, 1))
     + 0.4*(1 - min(|scale - 1|/tau_scale, 1))
     + 0.6*(1 - min(resid/tau_parallax, 1))],
    evaluated in double arithmetic from left to right. *)
Definition spec_min (x y : float) : float := if (y <? x)%float then y else x.

Definition spec_score (m : MotionSummary) (cfg : Config) : float :=
  (1.5 * inlier_ratio m
   + 0.6 * (1 - spec_min (abs (median_v m) / tau_v cfg) 1)
   + 0.4 * (1 - spec_min (abs (scale m - 1) / tau_scale cfg) 1)
   + 0.6 * (1 - spec_min (resid m / tau_parallax cfg) 1))%float.

(** The five conditions of the specification, as comparisons of doubles;
    [|scale - 1|] is the absolute value of the rounded difference. *)
Definition spec_pan_conditions (m : MotionSummary) (cfg : Config) : Prop :=
  (tau_inliers cfg <=? inlier_ratio m)%float = true
  /\ (abs (median_v m) <=? tau_v cfg)%float = true
  /\ ((tau_u_min cfg <=? abs (median_u m))%float = true
      /\ (abs (median_u m) <=? tau_u_max cfg)%float = true)
  /\ (abs (scale m - 1) <=? tau_scale cfg)%float = true
  /\ (resid m <=? tau_parallax cfg)%float = true.


(** Each entry of [pair_metrics] is the tuple [(is_pan, score, m)]. *)
Abbreviation pair_metric := (bool * float * option MotionSummary)%type.

(** ** Group builder *)

(** [1 if m["median_u"] >= 0 else -1]; subscripting [None] raises. *)
Definition direction_of (m : option MotionSummary) : result Z :=
  match m with
  | None => Err TypeError
  | Some m => Ok (if (0 <=? median_u m)%float then 1 else -1)
  end.

(** The inner [while j < len(pair_metrics)] loop. *)
Equations? extend_group (pm : list pair_metric) (direction : Z) (j : nat)
  (g : list nat) : result (nat * list nat) by wf (length pm - j)%nat lt :=
extend_group pm direction j g with decide (j < length pm)%nat := {
  | right _ := Ok (j, g);
  | left Hlt with pm !! j := {
    | None := Err IndexError;
    | Some (false, _, _) := Ok (j, g);
    | Some (true, _, m2) with direction_of m2 := {
      | Err e := Err e;
      | Ok dir2 with decide (dir2 = direction) := {
        | right _ := Ok (j, g);
        | left _ := extend_group pm direction (S j) (g ++ [S j]) } } } }.
Proof. lia. Qed.

(** [sorted(set(g))]. *)
Definition sorted_set (g : list nat) : list nat :=
  merge_sort le (remove_dups g).

(** The tail of one outer iteration: dedup, sort, and keep the group only
    when it has at least [min_group_len] positions. *)
Definition close_group (min_len : Z) (direction : Z) (g : list nat)
  (groups : list (Z * list nat)) : list (Z * list nat) :=
  let g' := sorted_set g in
  if decide (min_len <= Z.of_nat (length g')) then groups ++ [(direction, g')]
  else groups.

Definition inspect {A : Type} (x : A) : { y : A | x = y } := exist _ x eq_refl.

(** The outer [while i < len(pair_metrics)] loop, from scan index [i] with
    the groups found so far. *)
Equations? build_groups_from (min_len : Z) (pm : list pair_metric) (i : nat)
  (groups : list (Z * list nat)) : result (list (Z * list nat))
  by wf (length pm - i)%nat lt :=
build_groups_from min_len pm i groups with decide (i < length pm)%nat := {
  | right _ := Ok groups;
  | left Hlt with pm !! i := {
    | None := Err IndexError;
    | Some (false, _, _) := build_groups_from min_len pm (S i) groups;
    | Some (true, _, m) with direction_of m := {
      | Err e := Err e;
      | Ok direction
          with inspect (extend_group pm direction (S i) [i; S i]%nat) := {
        | exist _ (Err e) _ := Err e;
        | exist _ (Ok (j, g)) Hext :=
            build_groups_from min_len pm (S j)
              (close_group min_len direction g groups) } } } }.
Proof.
  all: try lia.
  assert (Hge : forall d k g0 k' g',
             extend_group pm d k g0 = Ok (k', g') -> (k <= k')%nat).
  { clear. intros d k g0.
    funelim (extend_group pm d k g0); intros k' g' E.
    all: try (rewrite <- Heqcall in E); try congruence.
    all: try (injection E as <- <-; lia).
    match goal with
    | IH : forall k' g', extend_group _ _ (S _) _ = _ -> _ |- _ =>
        apply IH in E; lia
    end. }
  apply Hge in Hext. lia.
Qed.

Definition build_groups (min_len : Z) (pm : list pair_metric)
  : result (list (Z * list nat)) :=
  build_groups_from min_len pm 0 [].

(** ** Export selector *)

(** Body of the [for idx in indices] loop of [pick_subset], on the loop
    state [(out, last)]. *)
Definition pick_step (target_step : Z) (st : list nat * option nat)
  (idx : nat) : list nat * option nat :=
  let '(out, last) := st in
  match last with
  | None => (out ++ [idx], Some idx)
  | Some l =>
    if decide (target_step <= Z.of_nat idx - Z.of_nat l)
    then (out ++ [idx], Some idx)
    else (out, last)
  end.

(** [l[-1]]. *)
Definition py_last {A : Type} (l : list A) : result A :=
  match last l with
  | Some x => Ok x
  | None => Err IndexError
  end.

(** [l[i]] for a non-negative index. *)
Definition py_index {A : Type} (l : list A) (i : nat) : result A :=
  match l !! i with
  | Some x => Ok x
  | None => Err IndexError
  end.

Definition pick_subset (indices : list nat) (target_step : Z)
  : result (list nat) :=
  let '(out, _) := foldl (pick_step target_step) ([], None) indices in
  o ← py_last out;
  i ← py_last indices;
  if decide (o ≠ i) then Ok (out ++ [i]) else Ok out.

(** The choice of [export_idxs] in the export loop;
    [step = max(1, int(round(2)))]. *)
Definition select_export (cfg : Config) (sampled_idxs : list nat)
  : result (list nat) :=
  if export_all_in_group cfg then Ok sampled_idxs
  else
    let step := Z.max 1 2 in
    pick_subset sampled_idxs step.

(** ** Images and the quality gate *)

(** A numpy image: 2-D grayscale or 3-D BGR, as rows of pixels. *)
Inductive ndarray : Type :=
| Gray (rows : list (list Z))
| BGR (rows : list (list (Z * Z * Z))).

(** [shape[:2]] as [(height, width)]. *)
Definition shape2 (a : ndarray) : Z * Z :=
  match a with
  | Gray rows => (Z.of_nat (length rows), Z.of_nat (length (hd [] rows)))
  | BGR rows => (Z.of_nat (length rows), Z.of_nat (length (hd [] rows)))
  end.

(** [a / b] on Python integers (true division): raises on a zero divisor;
    below [2^53] the correctly rounded quotient is the quotient of the
    converted operands. *)
Definition py_int_truediv (a b : Z) : result float :=
  if decide (b = 0) then Err ZeroDivisionError
  else Ok (float_of_Z a / float_of_Z b)%float.

(** [a % b] on integers. *)
Definition py_mod (a b : Z) : result Z :=
  if decide (b = 0) then Err ZeroDivisionError else Ok (a mod b).

(** [np.sum(gray < 10)]. *)
Definition count_black (rows : list (list Z)) : Z :=
  Z.of_nat (length (filter (fun p => p < 10) (concat rows))).

(** [gray.size]. *)
Definition gray_size (rows : list (list Z)) : Z :=
  Z.of_nat (length rows) * Z.of_nat (length (hd [] rows)).

(** [(black_pixels / total_pixels) * 100] on numpy scalars: both operands
    are cast to doubles, the quotient is rounded, then the product; numpy
    does not raise on an empty array, [0 / 0] is NaN. *)
Definition black_percentage (rows : list (list Z)) : float :=
  (float_of_Z (count_black rows) / float_of_Z (gray_size rows) * 100)%float.

(** The defaults of [detect_pan_groups_from_video]. *)
Definition default_cfg : Config := {|
  sample_every := 3;
  min_group_len := 3;
  sharp_thr := 20.0;
  feature := "ORB";
  tau_inliers := 0.30;
  tau_v := 1.5;
  tau_u_min := 15.0;
  tau_u_max := 400.0;
  tau_scale := 0.02;
  tau_parallax := 1.5;
  export_overlap_target := 0.4;
  jpeg_quality := 92;
  stitch := false;
  stitch_warper := "cylindrical";
  stitch_warper_scale := 1.0;
  export_all_in_group := false;
  min_pano_aspect_ratio := None;
  max_black_border_percent := None
|}.


(** ** Inputs and outputs of the pipeline *)

(** What the pipeline reads from [cv2.VideoCapture]: the open flag, the
    metadata properties, and the frames [cap.read()] yields in order. *)
Record VideoCapture : Type := mkCapture {
  isOpened : bool;
  CAP_PROP_FRAME_COUNT : Z;
  CAP_PROP_FPS : float;
  CAP_PROP_FRAME_WIDTH : Z;
  CAP_PROP_FRAME_HEIGHT : Z;
  frames : list ndarray
}.

(** The caller's [settings] dict: every key may be present or missing. *)
Module Settings.
Record t : Type := mk {
  sample_every : option Z;
  min_group_len : option Z;
  sharp_thr : option float;
  feature : option string;
  tau_inliers : option float;
  tau_v : option float;
  tau_u_min : option float;
  tau_u_max : option float;
  tau_scale : option float;
  tau_parallax : option float;
  export_overlap_target : option float;
  jpeg_quality : option Z;
  stitch : option bool;
  stitch_warper : option string;
  stitch_warper_scale : option float;
  export_all_in_group : option bool;
  min_pano_aspect_ratio : option float;
  max_black_border_percent : option float
}.

Definition empty : t :=
  mk None None None None None None None None None None None None None None
     None None None None.
End Settings.

(** [cfg.update(settings)]: present keys override, missing keys keep the
    value already in [cfg]. *)
Definition cfg_update (cfg : Config) (s : Settings.t) : Config := {|
  sample_every := default (sample_every cfg) (Settings.sample_every s);
  min_group_len := default (min_group_len cfg) (Settings.min_group_len s);
  sharp_thr := default (sharp_thr cfg) (Settings.sharp_thr s);
  feature := default (feature cfg) (Settings.feature s);
  tau_inliers := default (tau_inliers cfg) (Settings.tau_inliers s);
  tau_v := default (tau_v cfg) (Settings.tau_v s);
  tau_u_min := default (tau_u_min cfg) (Settings.tau_u_min s);
  tau_u_max := default (tau_u_max cfg) (Settings.tau_u_max s);
  tau_scale := default (tau_scale cfg) (Settings.tau_scale s);
  tau_parallax := default (tau_parallax cfg) (Settings.tau_parallax s);
  export_overlap_target :=
    default (export_overlap_target cfg) (Settings.export_overlap_target s);
  jpeg_quality := default (jpeg_quality cfg) (Settings.jpeg_quality s);
  stitch := default (stitch cfg) (Settings.stitch s);
  stitch_warper := default (stitch_warper cfg) (Settings.stitch_warper s);
  stitch_warper_scale :=
    default (stitch_warper_scale cfg) (Settings.stitch_warper_scale s);
  export_all_in_group :=
    default (export_all_in_group cfg) (Settings.export_all_in_group s);
  min_pano_aspect_ratio :=
    match Settings.min_pano_aspect_ratio s with
    | Some v => Some v
    | None => min_pano_aspect_ratio cfg
    end;
  max_black_border_percent :=
    match Settings.max_black_border_percent s with
    | Some v => Some v
    | None => max_black_border_percent cfg
    end
|}.

Module video_meta.
Record t : Type := mk {
  total_frames : Z;
  fps : float;
  width : Z;
  height : Z;
  sample_every : Z
}.
End video_meta.

Module GroupResult.
Record t : Type := mk {
  id : nat;
  direction : string;
  frame_indices : list Z;
  frame_uris : list string;
  pano_uri : option string
}.
End GroupResult.

Module Results.
Record t : Type := mk {
  video_meta : video_meta.t;
  groups : list GroupResult.t
}.
End Results.

Definition Stitcher_OK : Z := 0.

Section Pipeline.

(** External capabilities. [pair_motion_metrics] (feature detection,
    matching and RANSAC in OpenCV) returns a summary, returns [None], or
    raises. *)
Context
  (gray_of_bgr : Z * Z * Z -> Z)
  (laplacian_var : ndarray -> float)
  (pair_motion_metrics :
     ndarray -> ndarray -> string -> result (option MotionSummary))
  (gcs_join : string -> list string -> string)
  (open_video : string -> VideoCapture)
  (fmt_group : nat -> string)
  (fmt_frame : Z -> string)
  (fmt_pano : nat -> string)
  (save_frame_to_gcs : ndarray -> string -> Z -> result string)
  (stitch_group : list ndarray -> string -> float -> result (Z * ndarray))
  (write_and_upload : ndarray -> string -> result string).

(** [cv2.cvtColor(img, cv2.COLOR_BGR2GRAY)]: per pixel, shape preserved;
    OpenCV rejects empty and single-channel inputs. *)
Definition cvtColor_BGR2GRAY (img : ndarray) : result ndarray :=
  match img with
  | Gray _ => Err (ExternalError "cv2.error")
  | BGR rows =>
    if decide (concat rows = []) then Err (ExternalError "cv2.error")
    else Ok (Gray (map (map gray_of_bgr) rows))
  end.

Definition gray_rows (img : ndarray) : list (list Z) :=
  match img with
  | Gray rows => rows
  | BGR rows => map (map gray_of_bgr) rows
  end.

Definition frame_is_sharp (gray : ndarray) (thr : float) : bool :=
  (thr <? laplacian_var gray)%float.

Definition validate_panorama_quality (pano : ndarray)
  (min_width_height_ratio max_black_border_percent : float) : result bool :=
  let '(height, width) := shape2 pano in
  ratio ← py_int_truediv width height;
  if (ratio <? min_width_height_ratio)%float then Ok false
  else
    gray ← match pano with
           | BGR _ => cvtColor_BGR2GRAY pano
           | Gray _ => Ok pano
           end;
    Ok (black_percentage (gray_rows gray) <=? max_black_border_percent)%float.

(** The frame-reading loop: [fidx] counts decoded frames, [sampled]
    collects [(fidx, frame)] for the frames kept. *)
Fixpoint sample_frames (cfg : Config) (rest : list ndarray) (fidx : Z)
  (sampled : list (Z * ndarray)) : result (list (Z * ndarray)) :=
  match rest with
  | [] => Ok sampled
  | frame :: rest' =>
    r ← py_mod fidx (sample_every cfg);
    if decide (r = 0) then
      gray ← cvtColor_BGR2GRAY frame;
      if frame_is_sharp gray (sharp_thr cfg)
      then sample_frames cfg rest' (fidx + 1) (sampled ++ [(fidx, frame)])
      else sample_frames cfg rest' (fidx + 1) sampled
    else sample_frames cfg rest' (fidx + 1) sampled
  end.

(** One iteration of [for i in range(len(sampled) - 1)]. *)
Definition pair_metric_at (cfg : Config) (sampled : list (Z * ndarray))
  (i : nat) : result pair_metric :=
  '(_, img1) ← py_index sampled i;
  '(_, img2) ← py_index sampled (S i);
  m ← pair_motion_metrics img1 img2 (feature cfg);
  match m with
  | None => Ok (false, 0%float, None)
  | Some m =>
    '(is_pan, score) ← is_horizontal_pan (Some m) cfg;
    Ok (is_pan, score, Some m)
  end.

Definition compute_pair_metrics (cfg : Config)
  (sampled : list (Z * ndarray)) : result (list pair_metric) :=
  mapM (pair_metric_at cfg sampled) (seq 0 (length sampled - 1)).

(** One iteration of [for sidx in export_idxs]: the uploaded location and
    the original frame number. *)
Definition upload_frame (cfg : Config) (sampled : list (Z * ndarray))
  (gcs_output_prefix : string) (gid : nat) (sidx : nat)
  : result (string * Z) :=
  '(frame_idx, img) ← py_index sampled sidx;
  let out_uri :=
    gcs_join gcs_output_prefix
      ["groups"; fmt_group gid; fmt_frame frame_idx] in
  uploaded ← save_frame_to_gcs img out_uri (jpeg_quality cfg);
  Ok (uploaded, frame_idx).

(** [[sampled[s][1] for s in export_idxs]]. *)
Definition frames_for_stitch (sampled : list (Z * ndarray))
  (export_idxs : list nat) : result (list ndarray) :=
  mapM (fun s => '(_, img) ← py_index sampled s; Ok img) export_idxs.

(** The gate as the export loop calls it, with the [cfg.get] defaults. *)
Definition quality_gate (cfg : Config) (pano : ndarray) : result bool :=
  validate_panorama_quality pano
    (default 1.2%float (min_pano_aspect_ratio cfg))
    (default 15.0%float (max_black_border_percent cfg)).

(** The [if cfg["stitch"]:] block; the value is the variable [pano_uri]
    after it. *)
Definition stitch_export (cfg : Config) (sampled : list (Z * ndarray))
  (gcs_output_prefix : string) (gid : nat) (export_idxs : list nat)
  : result (option string) :=
  if stitch cfg then
    imgs ← frames_for_stitch sampled export_idxs;
    if decide (2 <= length imgs)%nat then
      '(status, pano) ←
        stitch_group imgs (stitch_warper cfg) (stitch_warper_scale cfg);
      if decide (status = Stitcher_OK) then
        valid ← quality_gate cfg pano;
        if (valid : bool) then
          uri ← write_and_upload pano
                  (gcs_join gcs_output_prefix ["panos"; fmt_pano gid]);
          Ok (Some uri)
        else Ok None
      else Ok None
    else Ok None
  else Ok None.

(** [{"pano_uri": pano_uri} if pano_uri else {}]: the key is emitted only
    for a truthy value. *)
Definition pano_entry (pano_uri : option string) : option string :=
  match pano_uri with
  | Some u => if decide (u = "") then None else Some u
  | None => None
  end.

(** One iteration of the export loop. *)
Definition export_group (cfg : Config) (sampled : list (Z * ndarray))
  (gcs_output_prefix : string) (gid : nat) (grp : Z * list nat)
  : result GroupResult.t :=
  let '(direction, sampled_idxs) := grp in
  export_idxs ← select_export cfg sampled_idxs;
  exported ← mapM (upload_frame cfg sampled gcs_output_prefix gid)
               export_idxs;
  pano_uri ← stitch_export cfg sampled gcs_output_prefix gid export_idxs;
  Ok {| GroupResult.id := gid;
        GroupResult.direction :=
          if decide (direction = 1) then "right" else "left";
        GroupResult.frame_indices := map snd exported;
        GroupResult.frame_uris := map fst exported;
        GroupResult.pano_uri := pano_entry pano_uri |}.

(** [enumerate(groups, start=1)]. *)
Definition enumerate1 {A : Type} (l : list A) : list (nat * A) :=
  zip (seq 1 (length l)) l.

Definition detect_pan_groups_from_video
  (local_video_path gcs_output_prefix : string) (settings : Settings.t)
  : result Results.t :=
  let cfg := cfg_update default_cfg settings in
  let cap := open_video local_video_path in
  if negb (isOpened cap) then Err (RuntimeError "Failed to open video")
  else
    let total_frames := CAP_PROP_FRAME_COUNT cap in
    let fps := if (CAP_PROP_FPS cap =? 0)%float then 0%float
               else CAP_PROP_FPS cap in
    let width := CAP_PROP_FRAME_WIDTH cap in
    let height := CAP_PROP_FRAME_HEIGHT cap in
    sampled ← sample_frames cfg (frames cap) 0 [];
    pair_metrics ← compute_pair_metrics cfg sampled;
    groups ← build_groups (min_group_len cfg) pair_metrics;
    results ← mapM (fun '(gid, grp) =>
                      export_group cfg sampled gcs_output_prefix gid grp)
                (enumerate1 groups);
    Ok {| Results.video_meta :=
            {| video_meta.total_frames := total_frames;
               video_meta.fps := fps;
               video_meta.width := width;
               video_meta.height := height;
               video_meta.sample_every := sample_every cfg |};
          Results.groups := results |}.

End Pipeline.

(** ** The URI helpers ([parse_gcs_uri], [gcs_join]) *)

(** Python strings are modelled as [string]; the helpers below follow the
    string methods the source calls. *)

Inductive uri_exception : Type :=
| ValueError (msg : string).

(** [s[n:]]. *)
Fixpoint drop_string (n : nat) (s : string) : string :=
  match n, s with
  | O, _ => s
  | S n', String _ s' => drop_string n' s'
  | S _, EmptyString => EmptyString
  end.

(** The first occurrence of [sep] in [s]: what lies before and after it. *)
Fixpoint partition_first (sep s : string) : option (string * string) :=
  if String.prefix sep s then Some (EmptyString, drop_string (String.length sep) s)
  else
    match s with
    | EmptyString => None
    | String c s' =>
      match partition_first sep s' with
      | Some (before, after) => Some (String c before, after)
      | None => None
      end
    end.

(** [s.split(sep, 1)] for a non-empty separator. *)
Definition py_split_once (sep s : string) : list string :=
  match partition_first sep s with
  | Some (before, after) => [before; after]
  | None => [s]
  end.

(** The character [/] (code 47). *)
Definition slash : Ascii.ascii := Eval compute in Ascii.ascii_of_nat 47.

Definition is_slash (c : Ascii.ascii) : bool := Ascii.eqb c slash.

Fixpoint lstrip_slash (s : string) : string :=
  match s with
  | String c s' => if is_slash c then lstrip_slash s' else s
  | EmptyString => EmptyString
  end.

Fixpoint rstrip_slash (s : string) : string :=
  match s with
  | String c s' =>
    match rstrip_slash s' with
    | EmptyString => if is_slash c then EmptyString else String c EmptyString
    | r => String c r
    end
  | EmptyString => EmptyString
  end.

(** [s.strip("/")]. *)
Definition strip_slash (s : string) : string := rstrip_slash (lstrip_slash s).

Definition parse_gcs_uri (uri : string) : uri_exception + (string * string) :=
  if negb (String.prefix "gs://" uri)
  then inl (ValueError "Expected GCS URI starting with gs://")
  else
    match py_split_once "gs://" uri with
    | [_; rest] =>
      match py_split_once "/" rest with
      | bucket :: path =>
        let blob_path := match path with p0 :: _ => p0 | [] => EmptyString end in
        inr (bucket, blob_path)
      | [] => inl (ValueError "not enough values to unpack")
      end
    | _ => inl (ValueError "not enough values to unpack")
    end.

(** [os.path.join(a, b)] on POSIX. *)
Definition posix_join (a b : string) : string :=
  if String.prefix "/" b then b
  else if String.eqb a "" || String.eqb (drop_string (String.length a - 1) a) "/"
       then String.append a b
       else String.append a (String.append "/" b).

Definition gcs_join (prefix : string) (parts : list string)
  : uri_exception + string :=
  if String.prefix "gs://" prefix then
    match parse_gcs_uri prefix with
    | inl e => inl e
    | inr (bucket, base) =>
      let joined :=
        String.concat "/"
          (map strip_slash
             (if String.eqb base "" then parts else base :: parts)) in
      if String.eqb joined ""
      then inr (String.append "gs://" bucket)
      else inr (String.append "gs://"
                  (String.append bucket (String.append "/" joined)))
    end
  else
    let joined_parts := String.concat "/" (map strip_slash parts) in
    inr (posix_join prefix joined_parts).

(** No character of [s] is a slash. *)
Fixpoint no_slash (s : string) : Prop :=
  match s with
  | EmptyString => True
  | String c s' => is_slash c = false /\ no_slash s'
  end.

(** ** The HTTP entry point ([main.py], [extract_pans]) *)

Module Handler.

(** What the handler can see raised: by [request.get_json], by attribute
    and item access on the parsed body, and by the library calls. *)
Inductive exn : Type :=
| BadRequest (msg : string)
| AttributeError (msg : string)
| KeyError (key : string)
| TypeError (msg : string)
| Failure (msg : string).

(** [str(e)]. *)
Definition str (e : exn) : string :=
  match e with
  | BadRequest msg => msg
  | AttributeError msg => msg
  | KeyError key => String.append "'" (String.append key "'")
  | TypeError msg => msg
  | Failure msg => msg
  end.

Section WithValues.

(** JSON values below the top level, and the pipeline's result record. *)
Context {value results : Type}.

(** The parsed request body, as far as the handler looks into it. *)
Inductive payload : Type :=
| JNull
| JBool (b : bool)
| JNumber (q : Q)
| JString (s : string)
| JArray (items : list value)
| JObject (d : gmap string value).

(** Truth value of a parsed body in [... if payload else 'None']. *)
Definition truthy (p : payload) : bool :=
  match p with
  | JNull => false
  | JBool b => b
  | JNumber q => negb (Qeq_bool q 0)
  | JString s => negb (String.eqb s "")
  | JArray items => match items with [] => false | _ => true end
  | JObject d => negb (bool_decide (d = ∅))
  end.

(** [payload.keys()]. *)
Definition keys (p : payload) : exn + list string :=
  match p with
  | JObject d => inr (map fst (map_to_list d))
  | _ => inl (AttributeError "object has no attribute 'keys'")
  end.

(** [payload[key]]. *)
Definition getitem (p : payload) (key : string) : exn + value :=
  match p with
  | JObject d =>
    match d !! key with
    | Some v => inr v
    | None => inl (KeyError key)
    end
  | _ => inl (TypeError "object is not subscriptable")
  end.

Record request : Type := mkRequest {
  method : string;
  get_json : exn + payload
}.

Inductive reply : Type :=
| error (msg : string)
| jsonify (r : results).

Context
  (empty_dict : value)
  (download_gcs_to_temp : value -> exn + string)
  (detect_pan_groups_from_video : string -> value -> value -> exn + results)
  (remove_temp : string -> exn + unit).

(** [try: results = detect(...) finally: remove the temporary file]: an
    exception of the clean-up replaces the one of the body. *)
Definition detect_then_clean (local_path : string) (output_prefix : value)
  (settings : value) : exn + results :=
  match detect_pan_groups_from_video local_path output_prefix settings,
        remove_temp local_path with
  | _, inl e => inl e
  | inl e, inr _ => inl e
  | inr r, inr _ => inr r
  end.

(** The handler: [inr (reply, status)] for a response, [inl e] when an
    exception leaves it. *)
Definition extract_pans (req : request) : exn + (reply * Z) :=
  if negb (String.eqb (method req) "POST")
  then inr (error "Use POST with JSON.", 405)
  else
    match get_json req with
    | inl e => inr (error (String.append "Invalid JSON: " (str e)), 400)
    | inr p =>
      match (if truthy p then keys p else inr []) with
      | inl e => inr (error (String.append "Invalid JSON: " (str e)), 400)
      | inr _ =>
        match getitem p "video_gcs_uri" with
        | inl (KeyError _) =>
          inr (error "Missing required fields: video_gcs_uri, output_prefix",
               400)
        | inl e => inl e
        | inr video_gcs_uri =>
          match getitem p "output_prefix" with
          | inl (KeyError _) =>
            inr (error
                   "Missing required fields: video_gcs_uri, output_prefix",
                 400)
          | inl e => inl e
          | inr output_prefix =>
            let settings :=
              match p with
              | JObject d => default empty_dict (d !! "settings")
              | _ => empty_dict
              end in
            match download_gcs_to_temp video_gcs_uri with
            | inl e => inr (error (str e), 500)
            | inr local_path =>
              match detect_then_clean local_path output_prefix settings with
              | inl e => inr (error (str e), 500)
              | inr r => inr (jsonify r, 200)
              end
            end
          end
        end
      end
    end.

(** The bodies that are false in a condition and are not objects: [null],
    [false], [0], the empty string and the empty array. *)
Definition falsy_non_object (p : payload) : Prop :=
  match p with
  | JObject _ => False
  | _ => truthy p = false
  end.

End WithValues.

End Handler.

(** ** Vocabulary of the statements about the group builder *)

(** Pair [k] is a pan step whose summary gives direction [d]. *)
Definition pan_at (pm : list pair_metric) (k : nat) (d : Z) : Prop :=
  exists score m,
    pm !! k = Some (true, score, Some m) /\ direction_of (Some m) = Ok d.

(** The inner loop leaves at [j]: the list is exhausted, pair [j] is not a
    pan, or it is a pan of another direction. *)
Definition stops_at (pm : list pair_metric) (d : Z) (j : nat) : Prop :=
  (length pm <= j)%nat
  \/ (exists score m, pm !! j = Some (false, score, m))
  \/ (exists d', pan_at pm j d' /\ d' <> d).

(** Every entry flagged as a pan carries its summary; the entries that
    [compute_pair_metrics] produces have this shape. *)
Definition summaries_present (pm : list pair_metric) : Prop :=
  Forall (fun p : pair_metric => p.1.1 = true -> is_Some p.2) pm.

(** The positions [{i, i+1, ..., k}] in ascending order. *)
Definition positions (i k : nat) : list nat := seq i (k + 1 - i).

Definition is_range (g : list nat) : Prop :=
  exists i k, (i + 1 <= k)%nat /\ g = positions i k.

Definition all_before (g1 g2 : list nat) : Prop :=
  forall x y, x ∈ g1 -> y ∈ g2 -> (x < y)%nat.

(** Earlier-emitted groups lie strictly before later-emitted ones. *)
Definition groups_ordered (gs : list (Z * list nat)) : Prop :=
  forall a b ga gb, (a < b)%nat ->
    gs !! a = Some ga -> gs !! b = Some gb -> all_before ga.2 gb.2.


(** The loop invariant of the outer loop over the groups found so far:
    each is a range inside [0 .. n] lying below the scan index [bound], and
    they are ordered. *)
Definition groups_inv (n bound : nat) (gs : list (Z * list nat)) : Prop :=
  Forall (fun g : Z * list nat =>
            is_range g.2
            /\ forall x, x ∈ g.2 -> (x < bound)%nat /\ (x <= n)%nat) gs
  /\ groups_ordered gs.

(** What closing the run of direction [d] with positions [{i, ..., j}]
    adds to the groups: the group itself when it has at least [min_len]
    positions, nothing otherwise. *)
Definition emitted_run (min_len : Z) (d : Z) (i j : nat)
  : list (Z * list nat) :=
  if decide (min_len <= Z.of_nat (length (positions i j)))
  then [(d, positions i j)] else [].

(** Distinct groups share no sampled position. *)
Definition groups_disjoint (gs : list (Z * list nat)) : Prop :=
  forall a b ga gb, a <> b ->
    gs !! a = Some ga -> gs !! b = Some gb ->
    forall x, x ∈ ga.2 -> x ∉ gb.2.

(** ** Vocabulary of the statements about the quality gate *)

Definition image_height (pano : ndarray) : Z := (shape2 pano).1.





(** The percentage of pixels of grayscale intensity below 10 among the
    grayscale rows of an image, [(black / total) * 100] as a double. *)
Definition percent_black (rows : list (list Z)) : float :=
  (float_of_Z (count_black rows) / float_of_Z (gray_size rows) * 100)%float.

(** ** Vocabulary of the statements about the pipeline *)

(** A configuration with the value under ["export_overlap_target"]
    replaced. *)
Definition with_export_overlap_target (v : float) (cfg : Config) : Config := {|
  sample_every := sample_every cfg;
  min_group_len := min_group_len cfg;
  sharp_thr := sharp_thr cfg;
  feature := feature cfg;
  tau_inliers := tau_inliers cfg;
  tau_v := tau_v cfg;
  tau_u_min := tau_u_min cfg;
  tau_u_max := tau_u_max cfg;
  tau_scale := tau_scale cfg;
  tau_parallax := tau_parallax cfg;
  export_overlap_target := v;
  jpeg_quality := jpeg_quality cfg;
  stitch := stitch cfg;
  stitch_warper := stitch_warper cfg;
  stitch_warper_scale := stitch_warper_scale cfg;
  export_all_in_group := export_all_in_group cfg;
  min_pano_aspect_ratio := min_pano_aspect_ratio cfg;
  max_black_border_percent := max_black_border_percent cfg
|}.

(** Two [settings] dicts that agree on every key other than
    ["export_overlap_target"]. *)
Definition differ_only_in_overlap_target (s1 s2 : Settings.t) : Prop :=
  Settings.sample_every s1 = Settings.sample_every s2
  /\ Settings.min_group_len s1 = Settings.min_group_len s2
  /\ Settings.sharp_thr s1 = Settings.sharp_thr s2
  /\ Settings.feature s1 = Settings.feature s2
  /\ Settings.tau_inliers s1 = Settings.tau_inliers s2
  /\ Settings.tau_v s1 = Settings.tau_v s2
  /\ Settings.tau_u_min s1 = Settings.tau_u_min s2
  /\ Settings.tau_u_max s1 = Settings.tau_u_max s2
  /\ Settings.tau_scale s1 = Settings.tau_scale s2
  /\ Settings.tau_parallax s1 = Settings.tau_parallax s2
  /\ Settings.jpeg_quality s1 = Settings.jpeg_quality s2
  /\ Settings.stitch s1 = Settings.stitch s2
  /\ Settings.stitch_warper s1 = Settings.stitch_warper s2
  /\ Settings.stitch_warper_scale s1 = Settings.stitch_warper_scale s2
  /\ Settings.export_all_in_group s1 = Settings.export_all_in_group s2
  /\ Settings.min_pano_aspect_ratio s1 = Settings.min_pano_aspect_ratio s2
  /\ Settings.max_black_border_percent s1
     = Settings.max_black_border_percent s2.

(** The ["video_meta"] entry of the result record, from the properties of
    the capture and the merged configuration. *)
Definition video_meta_of (cap : VideoCapture) (cfg : Config)
  : video_meta.t :=
  {| video_meta.total_frames := CAP_PROP_FRAME_COUNT cap;
     video_meta.fps := if (CAP_PROP_FPS cap =? 0)%float then 0%float
                       else CAP_PROP_FPS cap;
     video_meta.width := CAP_PROP_FRAME_WIDTH cap;
     video_meta.height := CAP_PROP_FRAME_HEIGHT cap;
     video_meta.sample_every := sample_every cfg |}.

(** The group result of a group whose frames were saved and that got no
    panorama. *)
Definition result_without_pano (gid : nat) (d : Z)
  (exported : list (string * Z)) : GroupResult.t :=
  {| GroupResult.id := gid;
     GroupResult.direction := if decide (d = 1) then "right" else "left";
     GroupResult.frame_indices := map snd exported;
     GroupResult.frame_uris := map fst exported;
     GroupResult.pano_uri := None |}.

(** Why the stitch block leaves [pano_uri] unset once the frames are
    gathered: fewer than two frames, a stitcher status other than
    [Stitcher_OK], or a rejection by the quality gate. *)
Inductive no_panorama (stitched : result (Z * ndarray))
  (gate : ndarray -> result bool) (imgs : list ndarray) : Prop :=
| too_few_frames :
    (length imgs < 2)%nat -> no_panorama stitched gate imgs
| stitch_failed (status : Z) (pano : ndarray) :
    (2 <= length imgs)%nat -> stitched = Ok (status, pano) ->
    status <> Stitcher_OK -> no_panorama stitched gate imgs
| gate_rejected (pano : ndarray) :
    (2 <= length imgs)%nat -> stitched = Ok (Stitcher_OK, pano) ->
    gate pano = Ok false -> no_panorama stitched gate imgs.

(** ** Vocabulary of the statements about the frame sampler *)

(** The frame converts to grayscale and its Laplacian variance exceeds
    [sharp_thr]. *)
Definition sharp_frame (gray_of_bgr : Z * Z * Z -> Z)
  (laplacian_var : ndarray -> float) (cfg : Config) (img : ndarray) : Prop :=
  exists gray,
    cvtColor_BGR2GRAY gray_of_bgr img = Ok gray
    /\ frame_is_sharp laplacian_var gray (sharp_thr cfg) = true.

(** [(f, img)] is the decoded frame number [f] of the stream, [f] is a
    multiple of the stride, and the frame is sharp. *)
Definition sampler_keeps (gray_of_bgr : Z * Z * Z -> Z)
  (laplacian_var : ndarray -> float) (cfg : Config) (stream : list ndarray)
  (start : Z) (entry : Z * ndarray) : Prop :=
  start <= entry.1
  /\ stream !! Z.to_nat (entry.1 - start) = Some entry.2
  /\ entry.1 mod sample_every cfg = 0
  /\ sharp_frame gray_of_bgr laplacian_var cfg entry.2.

(** A decoded colour frame: three-dimensional and not empty. *)
Definition decoded_frame (img : ndarray) : Prop :=
  exists rows, img = BGR rows /\ concat rows <> [].

(** ** Vocabulary of the statements about the pair metrics *)

(** One of the three thresholds the score divides by is zero. *)
Definition zero_divisor (cfg : Config) : Prop :=
  (tau_v cfg =? 0)%float = true
  \/ (tau_scale cfg =? 0)%float = true
  \/ (tau_parallax cfg =? 0)%float = true.

(** What entry [i] of [pair_metrics] holds for the images of the sampled
    frames [i] and [i+1]. *)
Definition classifies (summary : option MotionSummary) (cfg : Config)
  (p : pair_metric) : Prop :=
  match summary with
  | None => p = (false, 0%float, None)
  | Some m =>
    exists is_pan score,
      is_horizontal_pan (Some m) cfg = Ok (is_pan, score)
      /\ p = (is_pan, score, Some m)
  end.

(** ** Vocabulary of the further statements about the group builder *)

(** The group [g] is the run seeded at some pair [i]: pairs [i .. k-1] are
    pans of the group's direction, the run stops at pair [k], the positions
    are [{i, ..., k}], and the group passed the length filter. *)
Definition group_is_run (min_len : Z) (pm : list pair_metric)
  (g : Z * list nat) : Prop :=
  exists i k,
    (i < k)%nat
    /\ g.2 = positions i k
    /\ (forall p, (i <= p < k)%nat -> pan_at pm p g.1)
    /\ stops_at pm g.1 k
    /\ min_len <= Z.of_nat (length g.2)
    /\ (g.1 = 1 \/ g.1 = -1).

(** The length filter of [close_group], as a predicate on groups. *)
Definition long_enough (min_len : Z) (g : Z * list nat) : Prop :=
  min_len <= Z.of_nat (length g.2).

#[global] Instance long_enough_dec min_len g : Decision (long_enough min_len g).
Proof. unfold long_enough. apply _. Defined.

Definition no_pan (pm : list pair_metric) : Prop :=
  forall p : pair_metric, p ∈ pm -> p.1.1 = false.

(** ** Vocabulary of the further statements about the export selector *)

(** Neighbouring entries of [out] are at least [step] apart. *)
Definition spaced (step : Z) (out : list nat) : Prop :=
  forall (i a b : nat),
    out !! i = Some a -> out !! S i = Some b ->
    step <= Z.of_nat b - Z.of_nat a.

(** The state of the [for] loop of [pick_subset] after the indices [l]:
    [last] is the last kept index, the kept indices are a spaced subsequence
    of [l], and the final index of [l] is either kept or closer than [step]
    to the last kept one. *)
Definition pick_loop_inv (step : Z) (l : list nat)
  (st : list nat * option nat) : Prop :=
  st.2 = last st.1
  /\ st.1 `sublist_of` l
  /\ spaced step st.1
  /\ forall p x, l = p ++ [x] ->
       last st.1 = Some x
       \/ (st.1 `sublist_of` p
           /\ exists o, last st.1 = Some o /\ Z.of_nat x - Z.of_nat o < step).

(** ** Vocabulary of the further statements about the classifier *)

(** The summary of the mirrored motion: the horizontal displacement changes
    sign. *)
Definition mirror (m : MotionSummary) : MotionSummary := {|
  H := H m;
  inlier_ratio := inlier_ratio m;
  median_u := (- median_u m)%float;
  median_v := median_v m;
  resid := resid m;
  scale := scale m
|}.

(** ** Concrete inputs used to exercise the statements *)

Definition pan_right : MotionSummary := {|
  H := [[1; 0; 20]; [0; 1; 0]; [0; 0; 1]]%float;
  inlier_ratio := 0.8;
  median_u := 20;
  median_v := 0;
  resid := 0.5;
  scale := 1
|}.

Definition pan_left : MotionSummary := {|
  H := [[1; 0; -20]; [0; 1; 0]; [0; 0; 1]]%float;
  inlier_ratio := 0.8;
  median_u := -20;
  median_v := 0;
  resid := 0.5;
  scale := 1
|}.

(** A summary whose scale lies at the edge of a tolerance of 0.7: the
    doubles nearest to 0.3 and 0.7 are a little below 3/10 and 7/10, and
    [0.3 - 1.0] rounds to the negative of the latter. *)
Definition pan_scale_edge : MotionSummary := {|
  H := [];
  inlier_ratio := 0.8;
  median_u := 20;
  median_v := 0;
  resid := 0.5;
  scale := 0.3
|}.

(** A summary whose score, [0.75 + 0.3 + 0.4 + 0.3] in decimals, is not the
    double [1.75]: the constants [0.6] and [0.4] are not doubles, and each
    sum is rounded. *)
Definition pan_score_rounds : MotionSummary := {|
  H := [];
  inlier_ratio := 0.5;
  median_u := 20;
  median_v := 0.75;
  resid := 0.75;
  scale := 1
|}.

Definition T_right : pair_metric := (true, 1%float, Some pan_right).

Definition T_left : pair_metric := (true, 1%float, Some pan_left).

Definition F_pair : pair_metric := (false, 0%float, None).

(** The default thresholds with a zero vertical tolerance. *)
Definition cfg_tau_v_zero : Config :=
  cfg_update default_cfg
    (Settings.mk None None None None None (Some 0%float) None None None None
       None None None None None None None None).

(** The default thresholds with a scale tolerance of 0.7. *)
Definition cfg_tau_scale_wide : Config :=
  cfg_update default_cfg
    (Settings.mk None None None None None None None None (Some 0.7%float)
       None None None None None None None None None).

(** The defaults with stitching switched on. *)
Definition cfg_stitch_on : Config :=
  cfg_update default_cfg
    (Settings.mk None None None None None None None None None None None None
       (Some true) None None None None None).

(** A 2 x 4 grayscale image with one dark pixel, and a 2 x 2 one. *)
Definition wide_gray : ndarray :=
  Gray [[200; 200; 3; 200]; [200; 200; 200; 200]].

Definition square_gray : ndarray := Gray [[200; 200]; [200; 200]].


(** A 5 x 5 image with seven dark pixels. *)
Definition seven_of_25_gray : ndarray :=
  Gray [[0; 0; 0; 0; 0]; [0; 0; 200; 200; 200]; [200; 200; 200; 200; 200];
        [200; 200; 200; 200; 200]; [200; 200; 200; 200; 200]].

(** A 1 x 2 colour frame. *)
Definition bgr_frame : ndarray := BGR [[(90, 120, 150); (30, 60, 90)]].

(** Three sampled frames (original frame numbers 0, 3, 6). *)
Definition sampled3 : list (Z * ndarray) :=
  [(0, wide_gray); (3, wide_gray); (6, wide_gray)].

(** Stand-ins for the external capabilities: every pair is a rightward pan,
    every frame is sharp, paths are joined with [/], persistence echoes the
    destination, and the stitcher reports a failure status. *)
Definition always_pan_right (_ _ : ndarray) (_ : string)
  : result (option MotionSummary) := Ok (Some pan_right).

Definition always_sharp (_ : ndarray) : float := 100.

Definition blue_channel (p : Z * Z * Z) : Z := p.1.1.

Definition join_slash (prefix : string) (parts : list string) : string :=
  String.append prefix (String.concat "/" parts).

Definition echo_save (_ : ndarray) (dst : string) (_ : Z) : result string :=
  Ok dst.

Definition failing_stitch (_ : list ndarray) (_ : string) (_ : float)
  : result (Z * ndarray) := Ok (1, Gray []).

Definition echo_upload (_ : ndarray) (dst : string) : result string := Ok dst.

(** A capture of thirty identical colour frames. *)
Definition thirty_frames (_ : string) : VideoCapture :=
  mkCapture true 30 30 2 1 (replicate 30 bgr_frame).

Definition closed_capture (_ : string) : VideoCapture :=
  mkCapture false 0 0 0 0 [].

Definition group_name (_ : nat) : string := "group001".

Definition frame_name (_ : Z) : string := "frame.jpg".

Definition pano_name (_ : nat) : string := "group001.jpg".

(** Settings that only set ["export_overlap_target"], to 0.9, and settings
    that only switch stitching on. *)
Definition settings_overlap_only : Settings.t :=
  Settings.mk None None None None None None None None None None
    (Some 0.9%float) None None None None None None None.

Definition settings_stitch_only : Settings.t :=
  Settings.mk None None None None None None None None None None None None
    (Some true) None None None None None.

Definition pm3 : list pair_metric :=
  Eval vm_compute in
    match compute_pair_metrics always_pan_right default_cfg sampled3 with
    | Ok pm => pm
    | Err _ => []
    end.

(** Further stand-ins: a persistence capability that always fails, a
    capture of a single frame, and the results the stand-ins give. *)
Definition failing_save (_ : ndarray) (_ : string) (_ : Z) : result string :=
  Err (ExternalError "upload failed").

Definition one_frame (_ : string) : VideoCapture :=
  mkCapture true 1 30 2 1 [bgr_frame].

Definition group3_result : GroupResult.t :=
  {| GroupResult.id := 1;
     GroupResult.direction := "right";
     GroupResult.frame_indices := [0; 6];
     GroupResult.frame_uris :=
       ["out/groups/group001/frame.jpg"; "out/groups/group001/frame.jpg"];
     GroupResult.pano_uri := None |}.

Definition thirty_frames_result : Results.t :=
  {| Results.video_meta :=
       {| video_meta.total_frames := 30;
          video_meta.fps := 30;
          video_meta.width := 2;
          video_meta.height := 1;
          video_meta.sample_every := 3 |};
     Results.groups :=
       [{| GroupResult.id := 1;
           GroupResult.direction := "right";
           GroupResult.frame_indices := [0; 6; 12; 18; 24; 27];
           GroupResult.frame_uris :=
             replicate 6 "out/groups/group001/frame.jpg";
           GroupResult.pano_uri := None |}] |}.

(** Requests for the handler, over string values and a result that
    records the arguments of the detection. *)
Definition download_to_tmp (uri : string) : Handler.exn + string :=
  inr (String.append "/tmp/" uri).

Definition detect_echo (local_path output_prefix settings : string) :
  Handler.exn + list string :=
  inr [local_path; output_prefix; settings].

Definition remove_ok (local_path : string) : Handler.exn + unit := inr tt.

Definition body_two_fields : gmap string string :=
  <["video_gcs_uri" := "v.mp4"]> (<["output_prefix" := "gs://b/out"]> ∅).

Definition post_two_fields : Handler.request (value := string) :=
  Handler.mkRequest "POST" (inr (Handler.JObject body_two_fields)).

Definition post_null : Handler.request (value := string) :=
  Handler.mkRequest "POST" (inr Handler.JNull).

(** * Properties *)

(** ** Facts about binary64 arithmetic

    The primitive operations are specified by the library's [SpecFloat]
    functions; the facts below are read off those. *)

Ltac sf_cases :=
  cbn;
  change (Pos.compare_cont Eq ?a ?b) with (a ?= b)%positive;
  repeat match goal with
    | |- context [(?a ?= ?b)%Z] =>
        destruct (Z.compare_spec a b)
    | |- context [(?a ?= ?b)%positive] =>
        destruct (Pos.compare_spec a b)
    end;
  cbn; try reflexivity; try discriminate; try lia; try tauto.

Lemma SFcompare_antisym (x y : spec_float) :
  SFcompare y x = option_map CompOpp (SFcompare x y).
Proof.
  destruct x as [sx|sx| |sx mx ex], y as [sy|sy| |sy my ey];
    try destruct sx; try destruct sy; try reflexivity; sf_cases.
Qed.

Lemma SFcompare_refl (x : spec_float) :
  x <> S754_nan -> SFcompare x x = Some Eq.
Proof.
  destruct x as [s|s| |s m e]; try destruct s; try reflexivity;
    try contradiction; intros _; sf_cases.
Qed.

Lemma SFcompare_trans_lt (x y z : spec_float) :
  SFcompare x y = Some Lt ->
  (SFcompare y z = Some Lt \/ SFcompare y z = Some Eq) ->
  SFcompare x z = Some Lt.
Proof.
  destruct x as [sx|sx| |sx mx ex], y as [sy|sy| |sy my ey],
    z as [sz|sz| |sz mz ez];
    try destruct sx; try destruct sy; try destruct sz; cbn;
    try reflexivity; try discriminate;
    try (intros _ [H|H]; discriminate H).
  all: change (Pos.compare_cont Eq ?a ?b) with (a ?= b)%positive.
  all: destruct (Z.compare_spec ex ey); destruct (Z.compare_spec ey ez);
    destruct (Z.compare_spec ex ez);
    destruct (Pos.compare_spec mx my); destruct (Pos.compare_spec my mz);
    destruct (Pos.compare_spec mx mz); cbn;
    try reflexivity; try discriminate; try lia;
    try (intros _ [H'|H']; discriminate H').
Qed.

Lemma SFcompare_trans_le (x y z : spec_float) :
  (SFcompare x y = Some Lt \/ SFcompare x y = Some Eq) ->
  (SFcompare y z = Some Lt \/ SFcompare y z = Some Eq) ->
  SFcompare x z = Some Lt \/ SFcompare x z = Some Eq.
Proof.
  destruct x as [sx|sx| |sx mx ex], y as [sy|sy| |sy my ey],
    z as [sz|sz| |sz mz ez];
    try destruct sx; try destruct sy; try destruct sz; cbn;
    try (intros _ _; auto; fail);
    try (intros [H|H]; discriminate H);
    try (intros _ [H|H]; discriminate H).
  all: change (Pos.compare_cont Eq ?a ?b) with (a ?= b)%positive.
  all: destruct (Z.compare_spec ex ey); destruct (Z.compare_spec ey ez);
    destruct (Z.compare_spec ex ez);
    destruct (Pos.compare_spec mx my); destruct (Pos.compare_spec my mz);
    destruct (Pos.compare_spec mx mz); cbn;
    try (intros _ _; auto; fail); try lia;
    try (intros [H'|H']; discriminate H');
    try (intros _ [H'|H']; discriminate H').
Qed.

Lemma ltb_Lt (x y : float) :
  (x <? y)%float = true <-> SFcompare (Prim2SF x) (Prim2SF y) = Some Lt.
Proof.
  rewrite ltb_spec. unfold SFltb.
  destruct (SFcompare _ _) as [[]|]; split; congruence.
Qed.

Lemma leb_Le (x y : float) :
  (x <=? y)%float = true <->
  SFcompare (Prim2SF x) (Prim2SF y) = Some Lt
  \/ SFcompare (Prim2SF x) (Prim2SF y) = Some Eq.
Proof.
  rewrite leb_spec. unfold SFleb.
  destruct (SFcompare _ _) as [[]|]; split; try congruence; auto;
    intros [H|H]; congruence.
Qed.

Lemma eqb_Eq (x y : float) :
  (x =? y)%float = true <-> SFcompare (Prim2SF x) (Prim2SF y) = Some Eq.
Proof.
  rewrite eqb_spec. unfold SFeqb.
  destruct (SFcompare _ _) as [[]|]; split; congruence.
Qed.

Lemma is_nan_false (x : float) :
  is_nan x = false <-> Prim2SF x <> S754_nan.
Proof.
  unfold is_nan. rewrite negb_false_iff, eqb_Eq. split.
  - intros Hc Hn. rewrite Hn in Hc. discriminate Hc.
  - apply SFcompare_refl.
Qed.

Lemma float_leb_trans (x y z : float) :
  (x <=? y)%float = true -> (y <=? z)%float = true -> (x <=? z)%float = true.
Proof. rewrite !leb_Le. apply SFcompare_trans_le. Qed.

Lemma float_ltb_leb_trans (x y z : float) :
  (x <? y)%float = true -> (y <=? z)%float = true -> (x <? z)%float = true.
Proof. rewrite !ltb_Lt, leb_Le. apply SFcompare_trans_lt. Qed.

Lemma SFcompare_total (x y : spec_float) :
  x <> S754_nan -> y <> S754_nan -> exists c, SFcompare x y = Some c.
Proof.
  destruct x, y; try contradiction; intros _ _; cbn; eauto.
Qed.

(** On numbers, [not (x < y)] is [y <= x]. *)
Lemma float_ltb_false (x y : float) :
  is_nan x = false -> is_nan y = false ->
  (x <? y)%float = false <-> (y <=? x)%float = true.
Proof.
  rewrite !is_nan_false. intros Hx Hy.
  destruct (SFcompare_total _ _ Hx Hy) as [c Hc].
  rewrite <- not_true_iff_false, ltb_Lt, leb_Le.
  rewrite (SFcompare_antisym (Prim2SF x) (Prim2SF y)), Hc.
  destruct c; cbn; split; try congruence; auto; try tauto.
  all: try (intros [H|H]; discriminate H).
  all: try (intros H; exfalso; apply H; reflexivity).
Qed.

Lemma float_abs_opp (x : float) : abs (- x) = abs x.
Proof.
  apply Prim2SF_inj. rewrite !abs_spec, opp_spec.
  destruct (Prim2SF x); reflexivity.
Qed.

Lemma float_pos_nonzero (t : float) :
  (0 <? t)%float = true -> (t =? 0)%float = false.
Proof.
  rewrite ltb_Lt, <- not_true_iff_false, eqb_Eq.
  rewrite (SFcompare_antisym (Prim2SF 0) (Prim2SF t)).
  intros ->. discriminate.
Qed.

(** Negating a number other than zero flips the test [0 <= u]. *)
Lemma float_sign_flip (u : float) :
  (u =? 0)%float = false -> is_nan u = false ->
  (0 <=? - u)%float = negb (0 <=? u)%float.
Proof.
  rewrite <- not_true_iff_false, eqb_Eq, is_nan_false, !leb_spec, opp_spec.
  change (Prim2SF 0) with (S754_zero false).
  destruct (Prim2SF u) as [s|s| |s m e]; try destruct s; cbn; try reflexivity;
    intros H1 H2; try contradiction; exfalso; apply H1; reflexivity.
Qed.

















(** ** Pan classifier *)

Lemma py_min_spec_min (a b : float) : py_min a b = spec_min a b.
Proof. reflexivity. Qed.

(** On numbers the builtin is the minimum: it is one of its arguments and
    lies below both. *)
Lemma py_min_is_min (a b : float) :
  is_nan a = false -> is_nan b = false ->
  (py_min a b = a \/ py_min a b = b)
  /\ (py_min a b <=? a)%float = true
  /\ (py_min a b <=? b)%float = true.
Proof.
  intros Ha Hb. unfold py_min.
  assert (Haa : (a <=? a)%float = true).
  { apply leb_Le. right. apply SFcompare_refl, is_nan_false, Ha. }
  assert (Hbb : (b <=? b)%float = true).
  { apply leb_Le. right. apply SFcompare_refl, is_nan_false, Hb. }
  destruct (b <? a)%float eqn:Hlt.
  - split; [right; reflexivity|]. split; [|exact Hbb].
    apply leb_Le. left. apply ltb_Lt. exact Hlt.
  - split; [left; reflexivity|]. split; [exact Haa|].
    apply float_ltb_false; assumption.
Qed.

Lemma py_truediv_nonzero (x y : float) :
  (y =? 0)%float = false -> py_truediv x y = Ok (x / y)%float.
Proof. intros Hy. unfold py_truediv. rewrite Hy. reflexivity. Qed.

Lemma py_truediv_zero (x y : float) :
  (y =? 0)%float = true -> py_truediv x y = Err ZeroDivisionError.
Proof. intros Hy. unfold py_truediv. rewrite Hy. reflexivity. Qed.

Lemma pan_ok_spec (m : MotionSummary) (cfg : Config) :
  pan_ok m cfg = true <-> spec_pan_conditions m cfg.
Proof.
  unfold pan_ok, spec_pan_conditions, py_abs.
  rewrite !andb_true_iff. tauto.
Qed.

(** With nonzero divisors the classifier returns, and returns the
    conjunction of the five tests together with the specification's score. *)
Lemma is_horizontal_pan_nonzero (m : MotionSummary) (cfg : Config) :
  (tau_v cfg =? 0)%float = false -> (tau_scale cfg =? 0)%float = false ->
  (tau_parallax cfg =? 0)%float = false ->
  is_horizontal_pan (Some m) cfg = Ok (pan_ok m cfg, spec_score m cfg).
Proof.
  intros Hv Hs Hp. unfold is_horizontal_pan, spec_score, py_abs.
  rewrite (py_truediv_nonzero _ _ Hv), (py_truediv_nonzero _ _ Hs),
    (py_truediv_nonzero _ _ Hp).
  cbn [mbind result_bind]. rewrite !py_min_spec_min. reflexivity.
Qed.

(** The classifier raises exactly when one of the three divisors is zero. *)
Lemma is_horizontal_pan_raises_iff (m : MotionSummary) (cfg : Config) :
  is_horizontal_pan (Some m) cfg = Err ZeroDivisionError <-> zero_divisor cfg.
Proof.
  unfold zero_divisor. split.
  - intros Herr.
    destruct (tau_v cfg =? 0)%float eqn:Hv; [auto|].
    destruct (tau_scale cfg =? 0)%float eqn:Hs; [auto|].
    destruct (tau_parallax cfg =? 0)%float eqn:Hp; [auto|].
    rewrite (is_horizontal_pan_nonzero m cfg Hv Hs Hp) in Herr.
    discriminate Herr.
  - intros Hzero. unfold is_horizontal_pan, py_truediv.
    destruct (tau_v cfg =? 0)%float eqn:Ev; [reflexivity|].
    destruct (tau_scale cfg =? 0)%float eqn:Es; [reflexivity|].
    destruct (tau_parallax cfg =? 0)%float eqn:Ep; [reflexivity|].
    exfalso. destruct Hzero as [Hz | [Hz | Hz]]; congruence.
Qed.

Example is_horizontal_pan_right :
  is_horizontal_pan (Some pan_right) default_cfg
  = Ok (true, (1.5 * 0.8 + 0.6 * (1 - 0 / 1.5) + 0.4 * (1 - 0 / 0.02)
              + 0.6 * (1 - 0.5 / 1.5))%float).
Proof. reflexivity. Qed.

(** The scale test compares the rounded difference: with [scale = 0.3] and
    [tau_scale = 0.7] the double [|0.3 - 1.0|] is the double [0.7], and the
    pair is a pan, although the real number [|0.3 - 1|] on these doubles is
    above the threshold. *)
Example is_horizontal_pan_scale_edge :
  (abs (scale pan_scale_edge - 1) =? tau_scale cfg_tau_scale_wide)%float
  = true
  /\ exists score,
       is_horizontal_pan (Some pan_scale_edge) cfg_tau_scale_wide
       = Ok (true, score).
Proof. split; [reflexivity|]. eexists. reflexivity. Qed.

(** The score is the rounded sum: here [1.7500000000000002], where the
    decimal reading of the formula gives [1.75]. *)
Example is_horizontal_pan_score_rounds :
  is_horizontal_pan (Some pan_score_rounds) default_cfg
  = Ok (true, 1.7500000000000002%float)
  /\ (1.7500000000000002 =? 1.75)%float = false.
Proof. split; reflexivity. Qed.

(** C1 (as stated) fails: with [tau_v = 0] and a summary that meets all five
    conditions, the score's division raises [ZeroDivisionError], so the
    classifier does not return [is_pan = true]. *)
Lemma C1_zero_threshold_raises :
  spec_pan_conditions pan_right cfg_tau_v_zero
  /\ is_horizontal_pan (Some pan_right) cfg_tau_v_zero = Err ZeroDivisionError
  /\ ~ (forall (m : MotionSummary) (cfg : Config),
          (exists score, is_horizontal_pan (Some m) cfg = Ok (true, score))
          <-> spec_pan_conditions m cfg).
Proof.
  assert (Hc : spec_pan_conditions pan_right cfg_tau_v_zero).
  { apply pan_ok_spec. reflexivity. }
  split; [exact Hc|]. split; [reflexivity|].
  intros Hall. apply (Hall pan_right cfg_tau_v_zero) in Hc.
  destruct Hc as [score Hs]. discriminate Hs.
Qed.

(** C1 (amended): for every configuration, the classifier returns
    [is_pan = false], [score = 0] on an absent summary; when none of the
    three divisor thresholds [tau_v], [tau_scale], [tau_parallax] is zero it
    returns on every present summary, and [is_pan] is true iff the five
    conditions hold (as comparisons of doubles, [scale - 1.0] rounded); when
    one of the three is zero it raises [ZeroDivisionError] on every present
    summary. *)
Theorem C1_is_pan_iff_conditions (cfg : Config) :
  is_horizontal_pan None cfg = Ok (false, 0%float)
  /\ (forall m : MotionSummary,
        (tau_v cfg =? 0)%float = false ->
        (tau_scale cfg =? 0)%float = false ->
        (tau_parallax cfg =? 0)%float = false ->
        exists is_pan score,
          is_horizontal_pan (Some m) cfg = Ok (is_pan, score)
          /\ (is_pan = true <-> spec_pan_conditions m cfg))
  /\ (forall m : MotionSummary,
        zero_divisor cfg ->
        is_horizontal_pan (Some m) cfg = Err ZeroDivisionError).
Proof.
  split; [reflexivity|]. split.
  - intros m Hv Hs Hp.
    exists (pan_ok m cfg), (spec_score m cfg). split.
    + apply is_horizontal_pan_nonzero; assumption.
    + apply pan_ok_spec.
  - intros m Hz. apply is_horizontal_pan_raises_iff. exact Hz.
Qed.

Lemma C1_is_pan_iff_conditions_witness :
  exists is_pan score,
    is_horizontal_pan (Some pan_right) default_cfg = Ok (is_pan, score)
    /\ (is_pan = true <-> spec_pan_conditions pan_right default_cfg).
Proof.
  apply (proj1 (proj2 (C1_is_pan_iff_conditions default_cfg)) pan_right);
    reflexivity.
Defined.

(** C7: for every present summary and every configuration with positive
    thresholds, the classifier returns, and the returned score is exactly
    [1.5*inlier_ratio + 0.6*(1 - min(|median_v|/tau_v, 1))
     + 0.4*(1 - min(|scale - 1|/tau_scale, 1))
     + 0.6*(1 - min(resid/tau_parallax, 1))],
    the double that evaluating the formula from left to right gives. *)
Theorem C7_score_formula (m : MotionSummary) (cfg : Config) :
  (0 <? tau_inliers cfg)%float = true -> (0 <? tau_v cfg)%float = true ->
  (0 <? tau_u_min cfg)%float = true -> (0 <? tau_u_max cfg)%float = true ->
  (0 <? tau_scale cfg)%float = true -> (0 <? tau_parallax cfg)%float = true ->
  exists is_pan,
    is_horizontal_pan (Some m) cfg = Ok (is_pan, spec_score m cfg).
Proof.
  intros _ Hv _ _ Hs Hp. exists (pan_ok m cfg).
  apply is_horizontal_pan_nonzero; apply float_pos_nonzero; assumption.
Qed.

Lemma C7_score_formula_witness :
  exists is_pan,
    is_horizontal_pan (Some pan_score_rounds) default_cfg
    = Ok (is_pan, spec_score pan_score_rounds default_cfg).
Proof.
  apply (C7_score_formula pan_score_rounds default_cfg); reflexivity.
Defined.

(** ** Group builder: the loops unfolded *)

Ltac loop_unfold :=
  repeat match goal with
    | E : _ = extend_group _ _ _ _ |- _ => clear E
    | E : _ = build_groups_from _ _ _ _ |- _ => clear E
    | E : _ = (if _ then _ else _) |- _ => clear E
    | E : ?l = _ |- context [?l] => rewrite E; try clear E
    end;
  reflexivity.

Lemma extend_group_eq pm d j g :
  extend_group pm d j g =
  if decide (j < length pm)%nat then
    match pm !! j with
    | None => Err IndexError
    | Some (false, _, _) => Ok (j, g)
    | Some (true, _, m2) =>
      match direction_of m2 with
      | Err e => Err e
      | Ok dir2 =>
        if decide (dir2 = d) then extend_group pm d (S j) (g ++ [S j])
        else Ok (j, g)
      end
    end
  else Ok (j, g).
Proof. funelim (extend_group pm d j g); loop_unfold. Qed.

Lemma build_groups_from_eq ml pm i groups :
  build_groups_from ml pm i groups =
  if decide (i < length pm)%nat then
    match pm !! i with
    | None => Err IndexError
    | Some (false, _, _) => build_groups_from ml pm (S i) groups
    | Some (true, _, m) =>
      match direction_of m with
      | Err e => Err e
      | Ok d =>
        match extend_group pm d (S i) [i; S i] with
        | Err e => Err e
        | Ok (j, g) =>
          build_groups_from ml pm (S j) (close_group ml d g groups)
        end
      end
    end
  else Ok groups.
Proof. funelim (build_groups_from ml pm i groups); loop_unfold. Qed.

Lemma extend_group_stop pm d j g :
  stops_at pm d j -> extend_group pm d j g = Ok (j, g).
Proof.
  intros Hstop. rewrite extend_group_eq.
  destruct (decide (j < length pm)%nat) as [Hlt|]; [|reflexivity].
  destruct Hstop as [Hlen | [(s & m & E) | (d' & (s & m & E & Hd) & Hne)]].
  - lia.
  - rewrite E. reflexivity.
  - rewrite E, Hd. destruct (decide (d' = d)); [contradiction|reflexivity].
Qed.

Lemma extend_group_step pm d j g :
  pan_at pm j d ->
  extend_group pm d j g = extend_group pm d (S j) (g ++ [S j]).
Proof.
  intros (s & m & E & Hd). rewrite extend_group_eq.
  apply lookup_lt_Some in E as Hlt.
  destruct (decide (j < length pm)%nat); [|lia].
  rewrite E, Hd. destruct (decide (d = d)); [reflexivity|contradiction].
Qed.

(** A run of same-direction pans [j .. j'-1] that stops at [j'] makes the
    inner loop append [j+1 .. j'] and leave with [j']. *)
Lemma extend_group_run pm d (n j : nat) g :
  (forall k, (j <= k < j + n)%nat -> pan_at pm k d) ->
  stops_at pm d (j + n) ->
  extend_group pm d j g = Ok ((j + n)%nat, g ++ seq (S j) n).
Proof.
  revert j g. induction n as [|n IH]; intros j g Hrun Hstop.
  - rewrite Nat.add_0_r in *. rewrite app_nil_r.
    apply extend_group_stop. exact Hstop.
  - rewrite extend_group_step by (apply Hrun; lia).
    replace (j + S n)%nat with (S j + n)%nat in * by lia.
    rewrite IH; [|intros k Hk; apply Hrun; lia|exact Hstop].
    rewrite <- app_assoc. reflexivity.
Qed.

(** What the inner loop returns, whenever it returns. *)
Lemma extend_group_inv pm d j g j' g' :
  extend_group pm d j g = Ok (j', g') ->
  (j <= j')%nat
  /\ g' = g ++ seq (S j) (j' - j)
  /\ (forall k, (j <= k < j')%nat -> pan_at pm k d)
  /\ stops_at pm d j'
  /\ ((j <= length pm)%nat -> (j' <= length pm)%nat).
Proof.
  remember (length pm - j)%nat as n eqn:Hn.
  revert j g Hn. induction n as [n IH] using lt_wf_ind. intros j g Hn.
  rewrite extend_group_eq.
  destruct (decide (j < length pm)%nat) as [Hlt|Hge].
  - destruct (pm !! j) as [[[[] s] m]|] eqn:E; [| |discriminate].
    + destruct m as [m|]; [|discriminate]. cbn [direction_of].
      destruct (decide (_ = d)) as [Hd|Hd].
      * intros Hrec.
        apply (IH (length pm - S j)%nat) in Hrec; [|lia|reflexivity].
        destruct Hrec as (Hle & Hg & Hrun & Hstop & Hlen).
        split; [lia|]. split.
        { rewrite Hg, <- app_assoc. f_equal.
          replace (j' - j)%nat with (S (j' - S j)) by lia. reflexivity. }
        split; [|split; [exact Hstop|lia]].
        intros k Hk. destruct (decide (k = j)) as [->|Hkj].
        { exists s, m. split; [exact E|]. cbn [direction_of]. congruence. }
        apply Hrun. lia.
      * intros [= <- <-]. rewrite Nat.sub_diag, app_nil_r.
        repeat split; try lia.
        right; right. eexists. split; [|exact Hd].
        exists s, m. split; [exact E|reflexivity].
    + intros [= <- <-]. rewrite Nat.sub_diag, app_nil_r.
      repeat split; try lia. right; left. eauto.
  - intros [= <- <-]. rewrite Nat.sub_diag, app_nil_r.
    repeat split; try lia. left. lia.
Qed.

Lemma extend_group_returns pm d j g :
  summaries_present pm -> exists j' g', extend_group pm d j g = Ok (j', g').
Proof.
  intros Hwf. remember (length pm - j)%nat as n eqn:Hn.
  revert j g Hn. induction n as [n IH] using lt_wf_ind. intros j g Hn.
  rewrite extend_group_eq.
  destruct (decide (j < length pm)%nat) as [Hlt|Hge]; [|eauto].
  destruct (pm !! j) as [[[[] s] m]|] eqn:E.
  - destruct m as [m|].
    + cbn [direction_of]. destruct (decide (_ = d)); [|eauto].
      apply (IH (length pm - S j)%nat); [lia|reflexivity].
    + unfold summaries_present in Hwf. rewrite Forall_lookup in Hwf.
      destruct (Hwf _ _ E eq_refl) as [? [=]].
  - eauto.
  - apply lookup_ge_None in E. lia.
Qed.

(** ** Group builder: closing a group *)

Lemma remove_dups_NoDup_id (l : list nat) : NoDup l -> remove_dups l = l.
Proof.
  induction 1 as [|x l Hx Hnd IH]; [reflexivity|].
  cbn [remove_dups]. destruct (decide_rel elem_of x l); [contradiction|].
  rewrite IH. reflexivity.
Qed.

Lemma Sorted_le_seq (a n : nat) : Sorted le (seq a n).
Proof.
  revert a. induction n as [|n IH]; intros a; cbn [seq]; constructor.
  - apply IH.
  - destruct n; cbn [seq]; constructor. lia.
Qed.

Lemma sorted_set_seq (a n : nat) : sorted_set (seq a n) = seq a n.
Proof.
  unfold sorted_set. rewrite remove_dups_NoDup_id by apply NoDup_seq.
  apply (Sorted_unique le).
  - apply Sorted_merge_sort. intros x y. lia.
  - apply Sorted_le_seq.
  - apply merge_sort_Permutation.
Qed.

Lemma seed_positions (i j : nat) :
  (S i <= j)%nat -> [i; S i] ++ seq (S (S i)) (j - S i) = positions i j.
Proof.
  intros Hij. unfold positions.
  replace (j + 1 - i)%nat with (S (S (j - S i))) by lia. reflexivity.
Qed.

Lemma length_positions (i k : nat) :
  (i <= k)%nat -> length (positions i k) = (k + 1 - i)%nat.
Proof. intros _. unfold positions. apply length_seq. Qed.

Lemma length_positions' (i k : nat) :
  length (positions i k) = (k + 1 - i)%nat.
Proof. unfold positions. apply length_seq. Qed.

Lemma elem_of_positions (i k x : nat) :
  x ∈ positions i k <-> (i <= x < i + (k + 1 - i))%nat.
Proof. unfold positions. rewrite elem_of_seq. reflexivity. Qed.

Lemma close_group_positions ml d (i k : nat) groups :
  close_group ml d (positions i k) groups =
  if decide (ml <= Z.of_nat (k + 1 - i)) then groups ++ [(d, positions i k)]
  else groups.
Proof.
  unfold close_group, positions.
  rewrite sorted_set_seq, length_seq. reflexivity.
Qed.

(** ** Group builder: one outer iteration *)

Lemma build_groups_from_done ml pm i groups :
  (length pm <= i)%nat -> build_groups_from ml pm i groups = Ok groups.
Proof.
  intros Hge. rewrite build_groups_from_eq.
  destruct (decide (i < length pm)%nat); [lia|reflexivity].
Qed.

Lemma build_groups_from_skip ml pm i groups score m :
  pm !! i = Some (false, score, m) ->
  build_groups_from ml pm i groups = build_groups_from ml pm (S i) groups.
Proof.
  intros E. rewrite build_groups_from_eq. apply lookup_lt_Some in E as Hlt.
  destruct (decide (i < length pm)%nat); [|lia]. rewrite E. reflexivity.
Qed.

(** Scanning at [i], a run of pans [i .. j-1] of direction [d] that stops at
    [j] yields the candidate [{i, ..., j}] and resumes scanning at [j+1]. *)
Lemma build_groups_from_run ml pm (i j : nat) d groups :
  (i < j)%nat ->
  (forall k, (i <= k < j)%nat -> pan_at pm k d) ->
  stops_at pm d j ->
  extend_group pm d (S i) [i; S i] = Ok (j, positions i j)
  /\ build_groups_from ml pm i groups =
     build_groups_from ml pm (S j)
       (close_group ml d (positions i j) groups).
Proof.
  intros Hij Hrun Hstop.
  assert (Hext : extend_group pm d (S i) [i; S i] = Ok (j, positions i j)).
  { replace j with (S i + (j - S i))%nat at 1 by lia.
    rewrite <- (seed_positions i j) by lia.
    apply extend_group_run.
    - intros k Hk. apply Hrun. lia.
    - replace (S i + (j - S i))%nat with j by lia. exact Hstop. }
  split; [exact Hext|].
  destruct (Hrun i) as (s & m & E & Hd); [lia|].
  rewrite build_groups_from_eq. apply lookup_lt_Some in E as Hlt.
  destruct (decide (i < length pm)%nat); [|lia].
  rewrite E, Hd, Hext. reflexivity.
Qed.

(** ** Group builder: the invariant of the outer loop *)

Lemma groups_inv_nil (n bound : nat) : groups_inv n bound [].
Proof.
  split; [constructor|]. intros a b ga gb _ Ha. rewrite lookup_nil in Ha.
  discriminate.
Qed.

Lemma groups_inv_weaken (n b b' : nat) gs :
  (b <= b')%nat -> groups_inv n b gs -> groups_inv n b' gs.
Proof.
  intros Hb [Hall Hord]. split; [|exact Hord].
  eapply Forall_impl; [exact Hall|].
  intros g [Hr Hx]. split; [exact Hr|].
  intros x Hin. destruct (Hx x Hin). lia.
Qed.

Lemma groups_inv_snoc (n i j : nat) d gs :
  (i + 1 <= j)%nat -> (j <= n)%nat ->
  groups_inv n i gs -> groups_inv n (S j) (gs ++ [(d, positions i j)]).
Proof.
  intros Hij Hjn [Hall Hord]. split.
  - apply Forall_app. split.
    + eapply Forall_impl; [exact Hall|].
      intros g [Hr Hx]. split; [exact Hr|].
      intros x Hin. destruct (Hx x Hin). lia.
    + constructor; [|constructor]. split.
      * exists i, j. split; [lia|reflexivity].
      * intros x Hin. cbn in Hin. apply elem_of_positions in Hin. lia.
  - intros a b ga gb Hab Ha Hb.
    assert (Hlb : (b < length (gs ++ [(d, positions i j)]))%nat)
      by (eapply lookup_lt_Some; exact Hb).
    rewrite length_app in Hlb.
    change (length [(d, positions i j)]) with 1%nat in Hlb.
    rewrite lookup_app_l in Ha by lia.
    destruct (decide (b < length gs)%nat) as [Hlt|Hge].
    + rewrite lookup_app_l in Hb by lia. exact (Hord a b ga gb Hab Ha Hb).
    + rewrite lookup_app_r in Hb by lia.
      replace (b - length gs)%nat with 0%nat in Hb by lia.
      injection Hb as <-. cbn.
      intros x y Hx Hy. apply elem_of_positions in Hy.
      rewrite Forall_lookup in Hall.
      destruct (Hall _ _ Ha) as [_ Hbound]. destruct (Hbound x Hx). lia.
Qed.

Lemma groups_inv_close (n i j : nat) ml d gs :
  (i + 1 <= j)%nat -> (j <= n)%nat ->
  groups_inv n i gs ->
  groups_inv n (S j) (close_group ml d (positions i j) gs).
Proof.
  intros Hij Hjn Hinv. rewrite close_group_positions.
  destruct (decide _).
  - apply groups_inv_snoc; assumption.
  - eapply groups_inv_weaken; [|exact Hinv]. lia.
Qed.

(** The groups a closure adds start at the seed position. *)
Lemma close_group_new ml d (i j : nat) gs :
  exists new,
    close_group ml d (positions i j) gs = gs ++ new
    /\ Forall (fun g : Z * list nat => forall x, x ∈ g.2 -> (i <= x)%nat) new.
Proof.
  rewrite close_group_positions. destruct (decide _).
  - exists [(d, positions i j)]. split; [reflexivity|].
    constructor; [|constructor]. intros x Hin. cbn in Hin.
    apply elem_of_positions in Hin. lia.
  - exists []. rewrite app_nil_r. split; [reflexivity|constructor].
Qed.

Lemma build_groups_from_inv ml pm i groups gs :
  groups_inv (length pm) i groups ->
  build_groups_from ml pm i groups = Ok gs ->
  groups_inv (length pm) (S (length pm)) gs.
Proof.
  remember (length pm - i)%nat as n eqn:Hn.
  revert i groups Hn. induction n as [n IH] using lt_wf_ind.
  intros i groups Hn Hinv. rewrite build_groups_from_eq.
  destruct (decide (i < length pm)%nat) as [Hlt|Hge].
  - destruct (pm !! i) as [[[[] s] m]|] eqn:E; [| |discriminate].
    + destruct (direction_of m) as [d|] eqn:Hd; [|discriminate].
      destruct (extend_group pm d (S i) [i; S i]) as [[j g]|] eqn:Hext;
        [|discriminate].
      apply extend_group_inv in Hext as (Hle & Hg & _ & _ & Hlen).
      rewrite seed_positions in Hg by lia. subst g.
      apply (IH (length pm - S j)%nat); [lia|reflexivity|].
      apply groups_inv_close; [lia|lia|exact Hinv].
    + apply (IH (length pm - S i)%nat); [lia|reflexivity|].
      eapply groups_inv_weaken; [|exact Hinv]. lia.
  - intros [= <-]. destruct Hinv as [Hall Hord]. split; [|exact Hord].
    eapply Forall_impl; [exact Hall|]. intros g [Hr Hx].
    split; [exact Hr|]. intros x Hin. destruct (Hx x Hin). lia.
Qed.

(** Scanning from [i] only appends groups, and the appended groups lie at or
    after [i]. *)
Lemma build_groups_from_new ml pm i groups gs :
  build_groups_from ml pm i groups = Ok gs ->
  exists new,
    gs = groups ++ new
    /\ Forall (fun g : Z * list nat => forall x, x ∈ g.2 -> (i <= x)%nat) new.
Proof.
  remember (length pm - i)%nat as n eqn:Hn.
  revert i groups Hn. induction n as [n IH] using lt_wf_ind.
  intros i groups Hn. rewrite build_groups_from_eq.
  destruct (decide (i < length pm)%nat) as [Hlt|Hge].
  - destruct (pm !! i) as [[[[] s] m]|] eqn:E; [| |discriminate].
    + destruct (direction_of m) as [d|] eqn:Hd; [|discriminate].
      destruct (extend_group pm d (S i) [i; S i]) as [[j g]|] eqn:Hext;
        [|discriminate].
      apply extend_group_inv in Hext as (Hle & Hg & _ & _ & Hlen).
      rewrite seed_positions in Hg by lia. subst g. intros Hrec.
      apply (IH (length pm - S j)%nat) in Hrec; [|lia|reflexivity].
      destruct Hrec as (new & -> & Hnew).
      destruct (close_group_new ml d i j groups) as (mid & -> & Hmid).
      exists (mid ++ new). rewrite app_assoc. split; [reflexivity|].
      apply Forall_app. split; [exact Hmid|].
      eapply Forall_impl; [exact Hnew|]. intros g Hg x Hin.
      specialize (Hg x Hin). lia.
    + intros Hrec.
      apply (IH (length pm - S i)%nat) in Hrec; [|lia|reflexivity].
      destruct Hrec as (new & -> & Hnew).
      exists new. split; [reflexivity|].
      eapply Forall_impl; [exact Hnew|]. intros g Hg x Hin.
      specialize (Hg x Hin). lia.
  - intros [= <-]. exists []. rewrite app_nil_r.
    split; [reflexivity|constructor].
Qed.

Lemma build_groups_from_returns ml pm i groups :
  summaries_present pm -> exists gs, build_groups_from ml pm i groups = Ok gs.
Proof.
  intros Hwf. remember (length pm - i)%nat as n eqn:Hn.
  revert i groups Hn. induction n as [n IH] using lt_wf_ind.
  intros i groups Hn. rewrite build_groups_from_eq.
  destruct (decide (i < length pm)%nat) as [Hlt|Hge]; [|eauto].
  destruct (pm !! i) as [[[[] s] m]|] eqn:E.
  - destruct m as [m|].
    + cbn [direction_of].
      destruct (extend_group_returns pm
                  (if (0 <=? median_u m)%float then 1 else -1)
                  (S i) [i; S i] Hwf) as (j & g & Hext).
      rewrite Hext. apply extend_group_inv in Hext as (Hle & _).
      apply (IH (length pm - S j)%nat); [lia|reflexivity].
    + unfold summaries_present in Hwf. rewrite Forall_lookup in Hwf.
      destruct (Hwf _ _ E eq_refl) as [? [=]].
  - apply (IH (length pm - S i)%nat); [lia|reflexivity].
  - apply lookup_ge_None in E. lia.
Qed.

Lemma groups_ordered_disjoint gs : groups_ordered gs -> groups_disjoint gs.
Proof.
  intros Hord a b ga gb Hab Ha Hb x Hx Hx'.
  destruct (decide (a < b)%nat) as [Hlt|Hge].
  - pose proof (Hord a b ga gb Hlt Ha Hb x x Hx Hx'). lia.
  - assert (Hlt : (b < a)%nat) by lia.
    pose proof (Hord b a gb ga Hlt Hb Ha x x Hx' Hx). lia.
Qed.

Lemma pan_at_right pm k score m :
  pm !! k = Some (true, score, Some m) -> (0 <=? median_u m)%float = true ->
  pan_at pm k 1.
Proof.
  intros E Hu. exists score, m. split; [exact E|].
  cbn [direction_of]. rewrite Hu. reflexivity.
Qed.

Lemma pan_at_left pm k score m :
  pm !! k = Some (true, score, Some m) -> (0 <=? median_u m)%float = false ->
  pan_at pm k (-1).
Proof.
  intros E Hu. exists score, m. split; [exact E|].
  cbn [direction_of]. rewrite Hu. reflexivity.
Qed.

(** ** The claims about the group builder *)

Example build_groups_T_T_F_T :
  build_groups 3 [T_right; T_right; F_pair; T_right] = Ok [(1, [0; 1; 2]%nat)].
Proof. reflexivity. Qed.

Example build_groups_reversal :
  build_groups 3 [T_right; T_right; T_left] = Ok [(1, [0; 1; 2]%nat)].
Proof. reflexivity. Qed.

Example build_groups_reversal_then_more :
  build_groups 2 [T_right; T_left; T_left; T_right]
  = Ok [(1, [0; 1]%nat); (-1, [2; 3]%nat)].
Proof. reflexivity. Qed.

(** C2: on [[T(+), T(+), F, T(+)]] with [min_group_len = 3] the builder
    emits exactly one group, with positions [{0, 1, 2}]; the pan at pair 3
    seeds the candidate [{3, 4}], which has two positions and is discarded. *)
Theorem C2_T_T_F_T_one_group
  (s0 s1 s2 s3 : float) (m0 m1 m3 : MotionSummary)
  (m2 : option MotionSummary) :
  (0 <=? median_u m0)%float = true -> (0 <=? median_u m1)%float = true ->
  (0 <=? median_u m3)%float = true ->
  let pm : list pair_metric :=
    [(true, s0, Some m0); (true, s1, Some m1); (false, s2, m2);
     (true, s3, Some m3)] in
  build_groups 3 pm = Ok [(1, [0; 1; 2]%nat)]
  /\ build_groups_from 3 pm 0 [] =
     build_groups_from 3 pm 3 [(1, [0; 1; 2]%nat)]
  /\ extend_group pm 1 4 [3; 4]%nat = Ok (4%nat, [3; 4]%nat)
  /\ close_group 3 1 [3; 4]%nat [(1, [0; 1; 2]%nat)] = [(1, [0; 1; 2]%nat)].
Proof.
  intros H0 H1 H3 pm.
  assert (P0 : pan_at pm 0 1) by (eapply pan_at_right; [reflexivity|exact H0]).
  assert (P1 : pan_at pm 1 1) by (eapply pan_at_right; [reflexivity|exact H1]).
  assert (P3 : pan_at pm 3 1) by (eapply pan_at_right; [reflexivity|exact H3]).
  assert (Hfirst : build_groups_from 3 pm 0 [] =
                   build_groups_from 3 pm 3 [(1, [0; 1; 2]%nat)]).
  { destruct (build_groups_from_run 3 pm 0 2 1 []) as [_ ->];
      [lia| |right; left; exists s2, m2; reflexivity|reflexivity].
    intros k Hk. assert (k = 0 \/ k = 1)%nat as [-> | ->] by lia; assumption. }
  assert (Hlast : build_groups_from 3 pm 3 [(1, [0; 1; 2]%nat)] =
                  Ok [(1, [0; 1; 2]%nat)]).
  { destruct (build_groups_from_run 3 pm 3 4 1 [(1, [0; 1; 2]%nat)])
      as [_ ->]; [lia| |left; cbn; lia|].
    - intros k Hk. assert (k = 3)%nat as -> by lia. assumption.
    - apply build_groups_from_done. cbn. lia. }
  split; [|split; [exact Hfirst|split]].
  - unfold build_groups. rewrite Hfirst. exact Hlast.
  - apply extend_group_stop. left. cbn. lia.
  - reflexivity.
Qed.

Lemma C2_T_T_F_T_one_group_witness :
  build_groups 3 [T_right; T_right; F_pair; T_right] = Ok [(1, [0; 1; 2]%nat)].
Proof.
  refine (proj1 (C2_T_T_F_T_one_group 1 1 0 1 pan_right pan_right pan_right
                   None _ _ _)); reflexivity.
Defined.

Lemma close_group_emitted ml d (i j : nat) groups :
  close_group ml d (positions i j) groups = groups ++ emitted_run ml d i j.
Proof.
  rewrite close_group_positions. unfold emitted_run.
  rewrite length_positions'. destruct (decide _); [reflexivity|].
  rewrite app_nil_r. reflexivity.
Qed.

(** C3: when the builder, scanning at [i], meets pans of one direction [d]
    at pairs [i .. j-1] and a pan of another direction at pair [j], the
    inner loop leaves at [j] with the positions [{i, ..., j}] (position
    [j+1] is not merged); the group [(d, {i, ..., j})] is appended to the
    groups found so far when it has at least [min_group_len] positions (and
    nothing is appended otherwise); scanning resumes at pair [j+1]; every
    group found from there on lies at positions above [j], so the reversing
    pair seeds nothing; and the builder returns when the pan entries carry
    their summary. *)
Theorem C3_reversal_closes_group ml pm (i j : nat) d groups :
  (i < j)%nat ->
  (forall k, (i <= k < j)%nat -> pan_at pm k d) ->
  (exists d', pan_at pm j d' /\ d' <> d) ->
  extend_group pm d (S i) [i; S i] = Ok (j, positions i j)
  /\ (S j ∉ positions i j)
  /\ build_groups_from ml pm i groups =
     build_groups_from ml pm (S j) (groups ++ emitted_run ml d i j)
  /\ (forall gs, build_groups_from ml pm i groups = Ok gs ->
        exists new,
          gs = groups ++ emitted_run ml d i j ++ new
          /\ Forall (fun g : Z * list nat =>
                       forall x, x ∈ g.2 -> (j < x)%nat) new)
  /\ (summaries_present pm ->
      exists gs, build_groups_from ml pm i groups = Ok gs).
Proof.
  intros Hij Hrun Hrev.
  destruct (build_groups_from_run ml pm i j d groups Hij Hrun)
    as [Hext Hscan]; [right; right; exact Hrev|].
  rewrite close_group_emitted in Hscan.
  split; [exact Hext|]. split.
  { intros Hin. apply elem_of_positions in Hin. lia. }
  split; [exact Hscan|]. split.
  - intros gs Hgs. rewrite Hscan in Hgs.
    apply build_groups_from_new in Hgs as (new & -> & Hnew).
    exists new. rewrite app_assoc. split; [reflexivity|].
    eapply Forall_impl; [exact Hnew|]. intros g Hg x Hin.
    specialize (Hg x Hin). lia.
  - intros Hwf. apply build_groups_from_returns. exact Hwf.
Qed.

Lemma C3_reversal_closes_group_witness :
  build_groups_from 3 [T_right; T_right; T_left] 0 [] =
  build_groups_from 3 [T_right; T_right; T_left] 3
    ([] ++ emitted_run 3 1 0 2).
Proof.
  refine (proj1 (proj2 (proj2
    (C3_reversal_closes_group 3 [T_right; T_right; T_left] 0 2 1 [] _ _ _)))).
  - lia.
  - intros k Hk. exists 1%float, pan_right. split; [|reflexivity].
    destruct k as [|[|k]]; [reflexivity|reflexivity|lia].
  - exists (-1). split; [|discriminate].
    exists 1%float, pan_left. split; reflexivity.
Defined.

(** C9: every emitted group is a range [{i, ..., k}] of consecutive
    positions with [k >= i+1]; the groups are pairwise disjoint, and every
    position of an earlier group is strictly below every position of a
    later one. The builder returns on every sequence whose pan entries carry
    their summary. *)
Theorem C9_groups_are_ordered_ranges ml (pm : list pair_metric) :
  (forall gs, build_groups ml pm = Ok gs ->
     Forall (fun g : Z * list nat => is_range g.2) gs
     /\ groups_disjoint gs
     /\ groups_ordered gs)
  /\ (summaries_present pm -> exists gs, build_groups ml pm = Ok gs).
Proof.
  split.
  - intros gs Hgs.
    apply build_groups_from_inv in Hgs as [Hall Hord];
      [|apply groups_inv_nil].
    split; [|split; [apply groups_ordered_disjoint|]; exact Hord].
    eapply Forall_impl; [exact Hall|]. intros g [Hr _]. exact Hr.
  - intros Hwf. apply build_groups_from_returns. exact Hwf.
Qed.

Lemma C9_groups_are_ordered_ranges_witness :
  exists gs,
    build_groups 2 [T_right; T_left; T_left; T_right] = Ok gs
    /\ Forall (fun g : Z * list nat => is_range g.2) gs
    /\ groups_disjoint gs
    /\ groups_ordered gs.
Proof.
  destruct (C9_groups_are_ordered_ranges 2
              [T_right; T_left; T_left; T_right]) as [Hprop Hret].
  destruct Hret as [gs Hgs].
  - repeat constructor; intros _; eexists; reflexivity.
  - exists gs. split; [exact Hgs|]. apply Hprop. exact Hgs.
Defined.

(** ** Export selector *)

(** The loop state once the first index [x0] has been taken: [out] starts
    with [x0] and [last] is set. *)
Lemma pick_loop_started step (x0 : nat) (l : list nat) out y :
  exists rest z,
    foldl (pick_step step) (x0 :: out, Some y) l = (x0 :: rest, Some z).
Proof.
  revert out y. induction l as [|idx l IH]; intros out y; cbn [foldl].
  - eauto.
  - unfold pick_step at 2.
    destruct (decide (step <= Z.of_nat idx - Z.of_nat y)).
    + change (x0 :: out ++ [idx]) with (x0 :: (out ++ [idx])). apply IH.
    + apply IH.
Qed.

(** On a non-empty list [pick_subset] returns, and what it returns starts
    with the first input position and ends with the last. *)
Lemma pick_subset_endpoints (x0 : nat) (l : list nat) (step : Z) :
  exists out,
    pick_subset (x0 :: l) step = Ok out
    /\ head out = Some x0
    /\ last out = last (x0 :: l).
Proof.
  unfold pick_subset.
  change (foldl (pick_step step) ([], None) (x0 :: l))
    with (foldl (pick_step step) ([x0], Some x0) l).
  destruct (pick_loop_started step x0 l [] x0) as (rest & z & ->).
  unfold py_last.
  destruct (last (x0 :: rest)) as [o|] eqn:Ho.
  2: { rewrite last_cons in Ho. destruct (last rest); discriminate. }
  destruct (last (x0 :: l)) as [i|] eqn:Hi.
  2: { rewrite last_cons in Hi. destruct (last l); discriminate. }
  cbn [mbind result_bind].
  destruct (decide (o ≠ i)) as [Hne|Heq].
  - exists ((x0 :: rest) ++ [i]). split; [reflexivity|].
    split; [reflexivity|]. apply last_snoc.
  - exists (x0 :: rest). split; [reflexivity|]. split; [reflexivity|].
    rewrite Ho. f_equal. destruct (decide (o = i)); [assumption|contradiction].
Qed.

Lemma pick_subset_empty (step : Z) : pick_subset [] step = Err IndexError.
Proof. reflexivity. Qed.

Lemma head_elem_of {A : Type} (l : list A) (x : A) : head l = Some x -> x ∈ l.
Proof. destruct l; [discriminate|]. intros [= ->]. constructor. Qed.

Lemma last_elem_of {A : Type} (l : list A) (x : A) : last l = Some x -> x ∈ l.
Proof.
  induction l as [|y l IH]; [discriminate|].
  rewrite last_cons. destruct (last l) as [z|].
  - intros [= ->]. right. apply IH. reflexivity.
  - intros [= ->]. left.
Qed.

Example pick_subset_step2 :
  pick_subset [3; 4; 5; 6; 7; 8]%nat 2 = Ok [3; 5; 7; 8]%nat.
Proof. reflexivity. Qed.

Example pick_subset_step1 :
  pick_subset [3; 4; 5]%nat 1 = Ok [3; 4; 5]%nat.
Proof. reflexivity. Qed.

(** C4: on a non-empty strictly increasing list of positions and for every
    step [>= 1], [pick_subset] returns a list that contains the first and
    the last input position (so does the selector with
    [export_all_in_group = false], which calls it with step 2); with
    [export_all_in_group = true] the selector returns the positions
    unchanged. *)
Theorem C4_export_keeps_endpoints
  (cfg : Config) (indices : list nat) (step : Z) (first lst : nat) :
  head indices = Some first -> last indices = Some lst ->
  Sorted lt indices -> 1 <= step ->
  (exists out,
      pick_subset indices step = Ok out /\ first ∈ out /\ lst ∈ out)
  /\ (export_all_in_group cfg = false ->
      exists out,
        select_export cfg indices = Ok out /\ first ∈ out /\ lst ∈ out)
  /\ (export_all_in_group cfg = true ->
      select_export cfg indices = Ok indices).
Proof.
  intros Hhd Hlast _ _.
  destruct indices as [|x0 l]; [discriminate|]. injection Hhd as ->.
  assert (Hany : forall st, exists out,
             pick_subset (first :: l) st = Ok out /\ first ∈ out /\ lst ∈ out).
  { intros st.
    destruct (pick_subset_endpoints first l st) as (out & Hout & Hh & Hl).
    exists out. split; [exact Hout|]. split.
    - apply head_elem_of. exact Hh.
    - apply last_elem_of. rewrite Hl. exact Hlast. }
  split; [apply Hany|]. split.
  - intros Hall. unfold select_export. rewrite Hall. apply Hany.
  - intros Hall. unfold select_export. rewrite Hall. reflexivity.
Qed.

Lemma C4_export_keeps_endpoints_witness :
  exists out,
    pick_subset [3; 4; 5; 6; 7; 8]%nat 2 = Ok out
    /\ (3%nat ∈ out) /\ (8%nat ∈ out).
Proof.
  refine (proj1 (C4_export_keeps_endpoints default_cfg
                   [3; 4; 5; 6; 7; 8]%nat 2 3%nat 8%nat _ _ _ _)).
  - reflexivity.
  - reflexivity.
  - repeat constructor.
  - lia.
Defined.

(** ** Quality gate *)

Section QualityGate.

Context (gray_of_bgr : Z * Z * Z -> Z).

Let validate := validate_panorama_quality gray_of_bgr.

Lemma gray_size_map (rows : list (list (Z * Z * Z))) :
  gray_size (map (map gray_of_bgr) rows)
  = Z.of_nat (length rows) * Z.of_nat (length (hd [] rows)).
Proof.
  unfold gray_size. rewrite length_map. destruct rows as [|r rows]; cbn.
  - reflexivity.
  - rewrite length_map. reflexivity.
Qed.

Lemma gray_size_shape (pano : ndarray) :
  gray_size (gray_rows gray_of_bgr pano) = (shape2 pano).1 * (shape2 pano).2.
Proof.
  destruct pano as [rows|rows]; cbn [gray_rows shape2 fst snd];
    [reflexivity|apply gray_size_map].
Qed.




Example validate_wide_gray : validate wide_gray 1.2 15 = Ok true.
Proof. reflexivity. Qed.

Example validate_square_gray : validate square_gray 1.2 15 = Ok false.
Proof. reflexivity. Qed.

Example validate_empty_raises :
  validate (Gray []) 1.2 15 = Err ZeroDivisionError.
Proof. reflexivity. Qed.

(** Seven dark pixels in twenty-five are 28 percent, but the computed
    percentage is the double above 28, and the limit 28.0 rejects. *)
Example validate_rounds_percentage :
  percent_black (gray_rows gray_of_bgr seven_of_25_gray)
  = 28.000000000000004%float
  /\ validate seven_of_25_gray 1 28 = Ok false.
Proof. split; reflexivity. Qed.


End QualityGate.


(** ** The pipeline *)

Lemma mapM_Ok_Forall2 {A B : Type} (f : A -> result B) (l : list A)
  (k : list B) :
  mapM f l = Ok k <-> Forall2 (fun x y => f x = Ok y) l k.
Proof.
  split.
  - revert k. induction l as [|x l IH]; intros k; cbn.
    + intros [= <-]. constructor.
    + destruct (f x) as [y|] eqn:Hx; [|discriminate]. cbn.
      destruct (mapM f l) as [k'|] eqn:Hl; [|discriminate]. cbn.
      intros [= <-]. constructor; [exact Hx|]. apply IH. reflexivity.
  - induction 1 as [|x y l k Hx _ IH]; cbn; [reflexivity|].
    rewrite Hx. cbn. rewrite IH. reflexivity.
Qed.

Lemma mapM_Ok_length {A B : Type} (f : A -> result B) (l : list A)
  (k : list B) :
  mapM f l = Ok k -> length k = length l.
Proof.
  intros Hk. apply mapM_Ok_Forall2 in Hk.
  symmetry. eapply Forall2_length. exact Hk.
Qed.

Section PairMetrics.

Context
  (pair_motion_metrics :
     ndarray -> ndarray -> string -> result (option MotionSummary)).

Lemma pair_metric_at_shape cfg sampled (i : nat) (p : pair_metric) :
  pair_metric_at pair_motion_metrics cfg sampled i = Ok p ->
  p.1.1 = true -> is_Some p.2.
Proof.
  unfold pair_metric_at.
  destruct (py_index sampled i) as [[f1 img1]|]; [|discriminate].
  destruct (py_index sampled (S i)) as [[f2 img2]|]; [|discriminate].
  cbn [mbind result_bind].
  destruct (pair_motion_metrics img1 img2 (feature cfg)) as [[m|]|];
    [| |discriminate]; cbn [mbind result_bind].
  - destruct (is_horizontal_pan (Some m) cfg) as [[ok score]|];
      [|discriminate].
    cbn. intros [= <-] _. eexists. reflexivity.
  - intros [= <-]. discriminate.
Qed.

Lemma compute_pair_metrics_shape cfg sampled pm :
  compute_pair_metrics pair_motion_metrics cfg sampled = Ok pm ->
  length pm = (length sampled - 1)%nat /\ summaries_present pm.
Proof.
  unfold compute_pair_metrics. intros Hpm. split.
  - apply mapM_Ok_length in Hpm. rewrite Hpm. apply length_seq.
  - apply mapM_Ok_Forall2 in Hpm. unfold summaries_present.
    apply Forall_lookup. intros k p Hk.
    destruct (Forall2_lookup_r _ _ _ _ _ Hpm Hk) as (i & _ & Hi).
    eapply pair_metric_at_shape. exact Hi.
Qed.

(** C10: every group the builder emits has at least two positions,
    whatever [min_group_len] is, and [pick_subset] on it returns for every
    step (its [out[-1]] and [indices[-1]] are defined); on the pair metrics
    the pipeline computes from [sampled], the builder returns and every
    position of every group is a valid index into [sampled]. *)
Theorem C10_groups_are_safe_to_export cfg sampled pm (ml : Z) :
  (forall pm' gs,
      build_groups ml pm' = Ok gs ->
      Forall (fun g : Z * list nat =>
                (2 <= length g.2)%nat
                /\ (forall x, x ∈ g.2 -> (x <= length pm')%nat)
                /\ (forall step, exists out, pick_subset g.2 step = Ok out))
        gs)
  /\ (compute_pair_metrics pair_motion_metrics cfg sampled = Ok pm ->
      exists gs,
        build_groups ml pm = Ok gs
        /\ Forall (fun g : Z * list nat =>
                     forall x, x ∈ g.2 -> is_Some (sampled !! x)) gs).
Proof.
  assert (Hgen : forall pm' gs,
             build_groups ml pm' = Ok gs ->
             Forall (fun g : Z * list nat =>
                       (2 <= length g.2)%nat
                       /\ (forall x, x ∈ g.2 -> (x <= length pm')%nat)
                       /\ (forall step,
                             exists out, pick_subset g.2 step = Ok out))
               gs).
  { intros pm' gs Hgs.
    apply build_groups_from_inv in Hgs as [Hall _]; [|apply groups_inv_nil].
    eapply Forall_impl; [exact Hall|].
    intros [d g] [(i & k & Hik & ->) Hbound]. cbn [snd] in *.
    split; [rewrite length_positions; lia|]. split.
    - intros x Hx. apply Hbound in Hx. lia.
    - intros step. unfold positions.
      replace (k + 1 - i)%nat with (S (k - i)) by lia. cbn [seq].
      destruct (pick_subset_endpoints i (seq (S i) (k - i)) step)
        as (out & Hout & _).
      exists out. exact Hout. }
  split; [exact Hgen|].
  intros Hpm. apply compute_pair_metrics_shape in Hpm as [Hlen Hwf].
  destruct (build_groups_from_returns ml pm 0 [] Hwf) as [gs Hgs].
  exists gs. split; [exact Hgs|].
  apply build_groups_from_inv in Hgs as [Hall _]; [|apply groups_inv_nil].
  eapply Forall_impl; [exact Hall|].
  intros [d g] [(i & k & Hik & ->) Hbound] x Hx. cbn [snd] in *.
  assert (Hk : (k <= length pm)%nat).
  { apply Hbound, elem_of_positions. lia. }
  apply lookup_lt_is_Some. apply Hbound in Hx. lia.
Qed.

End PairMetrics.

Lemma C10_groups_are_safe_to_export_witness :
  exists gs,
    build_groups 0 pm3 = Ok gs
    /\ Forall (fun g : Z * list nat =>
                 forall x, x ∈ g.2 -> is_Some (sampled3 !! x)) gs.
Proof.
  apply (proj2 (C10_groups_are_safe_to_export always_pan_right default_cfg
                  sampled3 pm3 0)).
  reflexivity.
Defined.

Section ExportLoop.

Context
  (gray_of_bgr : Z * Z * Z -> Z)
  (laplacian_var : ndarray -> float)
  (pair_motion_metrics :
     ndarray -> ndarray -> string -> result (option MotionSummary))
  (gcs_join : string -> list string -> string)
  (open_video : string -> VideoCapture)
  (fmt_group : nat -> string)
  (fmt_frame : Z -> string)
  (fmt_pano : nat -> string)
  (save_frame_to_gcs : ndarray -> string -> Z -> result string)
  (stitch_group : list ndarray -> string -> float -> result (Z * ndarray))
  (write_and_upload : ndarray -> string -> result string).

Local Abbreviation upload :=
  (upload_frame gcs_join fmt_group fmt_frame save_frame_to_gcs).
Local Abbreviation stitch_block :=
  (stitch_export gray_of_bgr gcs_join fmt_pano stitch_group write_and_upload).
Local Abbreviation export :=
  (export_group gray_of_bgr gcs_join fmt_group fmt_frame fmt_pano
     save_frame_to_gcs stitch_group write_and_upload).
Local Abbreviation detect :=
  (detect_pan_groups_from_video gray_of_bgr laplacian_var pair_motion_metrics
     gcs_join open_video fmt_group fmt_frame fmt_pano save_frame_to_gcs
     stitch_group write_and_upload).
Local Abbreviation gate := (quality_gate gray_of_bgr).

(** The stitch block sets [pano_uri] only on a successful stitch that passed
    the gate. *)
Lemma stitch_block_Some cfg sampled prefix gid export_idxs u :
  stitch_block cfg sampled prefix gid export_idxs = Ok (Some u) ->
  stitch cfg = true
  /\ exists imgs pano,
       frames_for_stitch sampled export_idxs = Ok imgs
       /\ (2 <= length imgs)%nat
       /\ stitch_group imgs (stitch_warper cfg) (stitch_warper_scale cfg)
          = Ok (Stitcher_OK, pano)
       /\ gate cfg pano = Ok true.
Proof.
  unfold stitch_export. destruct (stitch cfg); [|discriminate].
  destruct (frames_for_stitch sampled export_idxs) as [imgs|];
    [|discriminate].
  cbn [mbind result_bind].
  destruct (decide (2 <= length imgs)%nat) as [Hlen|]; [|discriminate].
  destruct (stitch_group imgs _ _) as [[status pano]|] eqn:Hst;
    [|discriminate].
  cbn [mbind result_bind].
  destruct (decide (status = Stitcher_OK)) as [->|]; [|discriminate].
  destruct (quality_gate gray_of_bgr cfg pano) as [[]|] eqn:Hgate;
    try discriminate.
  intros _. split; [reflexivity|]. exists imgs, pano. auto.
Qed.

(** A failed or rejected stitch is absorbed: the block leaves [pano_uri]
    unset and raises nothing. *)
Lemma stitch_block_None cfg sampled prefix gid export_idxs imgs :
  frames_for_stitch sampled export_idxs = Ok imgs ->
  no_panorama
    (stitch_group imgs (stitch_warper cfg) (stitch_warper_scale cfg))
    (gate cfg) imgs ->
  stitch_block cfg sampled prefix gid export_idxs = Ok None.
Proof.
  intros Himgs Hno. unfold stitch_export.
  destruct (stitch cfg); [|reflexivity].
  rewrite Himgs. cbn [mbind result_bind].
  destruct Hno as [Hfew | status pano Hlen Hst Hstatus | pano Hlen Hst Hgate].
  - destruct (decide (2 <= length imgs)%nat); [lia|reflexivity].
  - destruct (decide (2 <= length imgs)%nat); [|reflexivity].
    rewrite Hst. cbn [mbind result_bind].
    destruct (decide (status = Stitcher_OK)); [contradiction|reflexivity].
  - destruct (decide (2 <= length imgs)%nat); [|reflexivity].
    rewrite Hst. cbn [mbind result_bind].
    destruct (decide (Stitcher_OK = Stitcher_OK)); [|contradiction].
    rewrite Hgate. reflexivity.
Qed.

Lemma pano_entry_Some (p : option string) (u : string) :
  pano_entry p = Some u -> p = Some u.
Proof.
  destruct p as [v|]; [|discriminate]. cbn.
  destruct (decide (v = "")); [discriminate|]. intros [= ->]. reflexivity.
Qed.

Lemma lookup_enumerate1 {A : Type} (l : list A) (k : nat) (x : A) :
  l !! k = Some x -> enumerate1 l !! k = Some (S k, x).
Proof.
  intros Hk. unfold enumerate1. apply lookup_zip_with_Some.
  exists (S k), x. split; [reflexivity|]. split; [|exact Hk].
  apply lookup_seq. split; [reflexivity|].
  eapply lookup_lt_Some. exact Hk.
Qed.

(** The pipeline returns a record exactly when the video opens, sampling,
    motion analysis and the builder return, and the export of every group
    returns; the record then lists the group results in the order of the
    groups. *)
Lemma detect_Ok_iff path prefix settings res :
  detect path prefix settings = Ok res <->
  isOpened (open_video path) = true
  /\ exists smp pm gs,
       sample_frames gray_of_bgr laplacian_var
         (cfg_update default_cfg settings) (frames (open_video path)) 0 []
       = Ok smp
       /\ compute_pair_metrics pair_motion_metrics
            (cfg_update default_cfg settings) smp = Ok pm
       /\ build_groups (min_group_len (cfg_update default_cfg settings)) pm
          = Ok gs
       /\ Forall2
            (fun (ig : nat * (Z * list nat)) gr =>
               export (cfg_update default_cfg settings) smp prefix
                 ig.1 ig.2 = Ok gr)
            (enumerate1 gs) (Results.groups res)
       /\ Results.video_meta res
          = video_meta_of (open_video path) (cfg_update default_cfg settings).
Proof.
  unfold detect_pan_groups_from_video. split.
  - destruct (isOpened (open_video path)); [|discriminate]. cbn [negb].
    destruct (sample_frames _ _ _ _ _ _) as [smp|]; [|discriminate].
    cbn [mbind result_bind].
    destruct (compute_pair_metrics _ _ smp) as [pm|] eqn:Hpm;
      [|discriminate].
    cbn [mbind result_bind].
    destruct (build_groups _ pm) as [gs|] eqn:Hgs; [|discriminate].
    cbn [mbind result_bind].
    destruct (mapM _ (enumerate1 gs)) as [results|] eqn:Hres;
      [|discriminate].
    cbn [mbind result_bind]. intros [= <-]. cbn [Results.groups].
    split; [reflexivity|].
    exists smp, pm, gs. split; [reflexivity|]. split; [exact Hpm|].
    split; [exact Hgs|]. split; [|reflexivity].
    apply mapM_Ok_Forall2 in Hres.
    eapply Forall2_impl; [exact Hres|].
    intros [gid' grp] gr Hgr. exact Hgr.
  - intros (Hopen & smp & pm & gs & Hsmp & Hpm & Hgs & Hall & Hmeta).
    rewrite Hopen. cbn [negb]. rewrite Hsmp. cbn [mbind result_bind].
    rewrite Hpm. cbn [mbind result_bind]. rewrite Hgs.
    cbn [mbind result_bind].
    assert (Hres : mapM (fun '(gid, grp) =>
                           export (cfg_update default_cfg settings) smp
                             prefix gid grp) (enumerate1 gs)
                   = Ok (Results.groups res)).
    { apply mapM_Ok_Forall2. eapply Forall2_impl; [exact Hall|].
      intros [gid' grp] gr Hgr. exact Hgr. }
    rewrite Hres. cbn [mbind result_bind].
    destruct res as [meta grs]. cbn [Results.video_meta Results.groups] in *.
    rewrite Hmeta. reflexivity.
Qed.

(** C6: a group result carries [pano_uri] only if stitching is on, the
    stitcher returned [Stitcher_OK] on at least two export frames and the
    stitched image passed the gate. When stitching fails, the gate rejects
    or fewer than two frames exist, the export of the group still returns
    its result, without [pano_uri] and with the exported frame numbers and
    locations. The pipeline returns a record exactly when the video opens,
    its sampling, motion analysis and group building return and the export
    of every built group returns, and the record then holds the group
    results in the order of the groups; so in a returned record the group
    whose stitch failed stands at its place, with its frames and without
    [pano_uri]. *)
Theorem C6_pano_uri_only_after_gate cfg sampled prefix (gid : nat)
  (d : Z) (idxs : list nat) :
  (forall gr u,
      export cfg sampled prefix gid (d, idxs) = Ok gr ->
      GroupResult.pano_uri gr = Some u ->
      stitch cfg = true
      /\ exists export_idxs imgs pano,
           select_export cfg idxs = Ok export_idxs
           /\ frames_for_stitch sampled export_idxs = Ok imgs
           /\ (2 <= length imgs)%nat
           /\ stitch_group imgs (stitch_warper cfg) (stitch_warper_scale cfg)
              = Ok (Stitcher_OK, pano)
           /\ gate cfg pano = Ok true)
  /\ (forall export_idxs exported imgs,
        select_export cfg idxs = Ok export_idxs ->
        mapM (upload cfg sampled prefix gid) export_idxs = Ok exported ->
        frames_for_stitch sampled export_idxs = Ok imgs ->
        no_panorama
          (stitch_group imgs (stitch_warper cfg) (stitch_warper_scale cfg))
          (gate cfg) imgs ->
        export cfg sampled prefix gid (d, idxs)
        = Ok (result_without_pano gid d exported))
  /\ (forall path settings res,
        detect path prefix settings = Ok res <->
        isOpened (open_video path) = true
        /\ exists smp pm gs,
             sample_frames gray_of_bgr laplacian_var
               (cfg_update default_cfg settings) (frames (open_video path))
               0 [] = Ok smp
             /\ compute_pair_metrics pair_motion_metrics
                  (cfg_update default_cfg settings) smp = Ok pm
             /\ build_groups
                  (min_group_len (cfg_update default_cfg settings)) pm
                = Ok gs
             /\ Forall2
                  (fun (ig : nat * (Z * list nat)) gr =>
                     export (cfg_update default_cfg settings) smp prefix
                       ig.1 ig.2 = Ok gr)
                  (enumerate1 gs) (Results.groups res)
             /\ Results.video_meta res
                = video_meta_of (open_video path)
                    (cfg_update default_cfg settings))
  /\ (forall path settings res smp pm gs (k : nat) d' idxs' export_idxs
        exported imgs,
        let cfg' := cfg_update default_cfg settings in
        detect path prefix settings = Ok res ->
        sample_frames gray_of_bgr laplacian_var cfg'
          (frames (open_video path)) 0 [] = Ok smp ->
        compute_pair_metrics pair_motion_metrics cfg' smp = Ok pm ->
        build_groups (min_group_len cfg') pm = Ok gs ->
        gs !! k = Some (d', idxs') ->
        select_export cfg' idxs' = Ok export_idxs ->
        mapM (upload cfg' smp prefix (S k)) export_idxs = Ok exported ->
        frames_for_stitch smp export_idxs = Ok imgs ->
        no_panorama
          (stitch_group imgs (stitch_warper cfg') (stitch_warper_scale cfg'))
          (gate cfg') imgs ->
        Results.groups res !! k
        = Some (result_without_pano (S k) d' exported)).
Proof.
  assert (Hfail : forall cfg0 smp0 gid0 d0 idxs0 export_idxs exported imgs,
             select_export cfg0 idxs0 = Ok export_idxs ->
             mapM (upload cfg0 smp0 prefix gid0) export_idxs = Ok exported ->
             frames_for_stitch smp0 export_idxs = Ok imgs ->
             no_panorama
               (stitch_group imgs (stitch_warper cfg0)
                  (stitch_warper_scale cfg0))
               (gate cfg0) imgs ->
             export cfg0 smp0 prefix gid0 (d0, idxs0)
             = Ok (result_without_pano gid0 d0 exported)).
  { intros cfg0 smp0 gid0 d0 idxs0 export_idxs exported imgs
      Hsel Hup Himgs Hno.
    unfold export_group. rewrite Hsel. cbn [mbind result_bind].
    rewrite Hup. cbn [mbind result_bind].
    rewrite (stitch_block_None _ _ _ _ _ _ Himgs Hno). reflexivity. }
  split; [|split; [|split]].
  - intros gr u. unfold export_group.
    destruct (select_export cfg idxs) as [export_idxs|]; [|discriminate].
    cbn [mbind result_bind].
    destruct (mapM _ export_idxs) as [exported|]; [|discriminate].
    cbn [mbind result_bind].
    destruct (stitch_block cfg sampled prefix gid export_idxs)
      as [pano_uri|] eqn:Hblock; [|discriminate].
    cbn [mbind result_bind]. intros [= <-]. cbn [GroupResult.pano_uri].
    intros Hu. apply pano_entry_Some in Hu. subst pano_uri.
    apply stitch_block_Some in Hblock
      as (Hon & imgs & pano & Himgs & Hlen & Hst & Hgate).
    split; [exact Hon|]. exists export_idxs, imgs, pano. auto.
  - apply Hfail.
  - intros path settings res. apply detect_Ok_iff.
  - intros path settings res smp pm gs k d' idxs' export_idxs exported imgs
      cfg' Hres Hsmp Hpm Hgs Hk Hsel Hup Himgs Hno.
    apply detect_Ok_iff in Hres
      as (_ & smp' & pm' & gs' & Hsmp' & Hpm' & Hgs' & Hall & _).
    fold cfg' in Hsmp', Hpm', Hgs', Hall.
    rewrite Hsmp in Hsmp'. injection Hsmp' as <-.
    rewrite Hpm in Hpm'. injection Hpm' as <-.
    rewrite Hgs in Hgs'. injection Hgs' as <-.
    apply lookup_enumerate1 in Hk.
    destruct (Forall2_lookup_l _ _ _ _ _ Hall Hk) as (gr & Hgr & Hexp).
    cbn [fst snd] in Hexp.
    rewrite (Hfail cfg' smp (S k) d' idxs' export_idxs exported imgs
               Hsel Hup Himgs Hno) in Hexp.
    injection Hexp as <-. exact Hgr.
Qed.

(** ** The unread key *)

Lemma cfg_update_differ (s1 s2 : Settings.t) :
  differ_only_in_overlap_target s1 s2 ->
  cfg_update default_cfg s2 =
  with_export_overlap_target
    (export_overlap_target (cfg_update default_cfg s2))
    (cfg_update default_cfg s1).
Proof.
  destruct s1, s2. unfold differ_only_in_overlap_target. cbn.
  intros (-> & -> & -> & -> & -> & -> & -> & -> & -> & -> & -> & -> & ->
          & -> & -> & -> & ->).
  reflexivity.
Qed.

Lemma sample_frames_overlap_target v cfg rest fidx sampled :
  sample_frames gray_of_bgr laplacian_var
    (with_export_overlap_target v cfg) rest fidx sampled
  = sample_frames gray_of_bgr laplacian_var cfg rest fidx sampled.
Proof.
  revert fidx sampled. induction rest as [|frame rest IH];
    intros fidx sampled; cbn [sample_frames]; [reflexivity|].
  change (sample_every (with_export_overlap_target v cfg))
    with (sample_every cfg).
  change (sharp_thr (with_export_overlap_target v cfg)) with (sharp_thr cfg).
  destruct (py_mod fidx (sample_every cfg)) as [r|]; [|reflexivity].
  cbn [mbind result_bind].
  destruct (decide (r = 0)); [|apply IH].
  destruct (cvtColor_BGR2GRAY gray_of_bgr frame) as [gray|]; [|reflexivity].
  cbn [mbind result_bind].
  destruct (frame_is_sharp laplacian_var gray (sharp_thr cfg)); apply IH.
Qed.

Lemma detect_overlap_target_unread path prefix (s1 s2 : Settings.t) :
  differ_only_in_overlap_target s1 s2 ->
  detect path prefix s1 = detect path prefix s2.
Proof.
  intros Hdiff. unfold detect_pan_groups_from_video.
  rewrite (cfg_update_differ s1 s2 Hdiff).
  generalize (export_overlap_target (cfg_update default_cfg s2)) as v.
  generalize (cfg_update default_cfg s1) as cfg. intros cfg v.
  rewrite sample_frames_overlap_target. reflexivity.
Qed.

(** C8: two runs on the same video and the same external behaviour whose
    settings differ only under ["export_overlap_target"] return the same
    result; without [export_all_in_group] the export subset is
    [pick_subset] with the fixed step 2. *)
Theorem C8_export_overlap_target_unread path prefix (s1 s2 : Settings.t) :
  differ_only_in_overlap_target s1 s2 ->
  detect path prefix s1 = detect path prefix s2
  /\ forall cfg idxs,
       export_all_in_group cfg = false ->
       select_export cfg idxs = pick_subset idxs 2.
Proof.
  intros Hdiff. split; [apply detect_overlap_target_unread; exact Hdiff|].
  intros cfg idxs Hall. unfold select_export. rewrite Hall. reflexivity.
Qed.

End ExportLoop.

Example export_group_failed_stitch :
  export_group blue_channel join_slash group_name frame_name pano_name
    echo_save failing_stitch echo_upload cfg_stitch_on sampled3 "out/" 1
    (1, [0; 1; 2]%nat)
  = Ok {| GroupResult.id := 1;
          GroupResult.direction := "right";
          GroupResult.frame_indices := [0; 6];
          GroupResult.frame_uris :=
            ["out/groups/group001/frame.jpg"; "out/groups/group001/frame.jpg"];
          GroupResult.pano_uri := None |}.
Proof. reflexivity. Qed.

(** Thirty sharp frames of a steady rightward pan, sampled every third
    frame: one group, exported from its first to its last frame, and a failed
    stitch that leaves the group in place. *)
Example detect_thirty_frames :
  detect_pan_groups_from_video blue_channel always_sharp always_pan_right
    join_slash thirty_frames group_name frame_name pano_name echo_save
    failing_stitch echo_upload "in.mp4" "out/" settings_stitch_only
  = Ok {| Results.video_meta :=
            {| video_meta.total_frames := 30;
               video_meta.fps := 30;
               video_meta.width := 2;
               video_meta.height := 1;
               video_meta.sample_every := 3 |};
          Results.groups :=
            [{| GroupResult.id := 1;
                GroupResult.direction := "right";
                GroupResult.frame_indices := [0; 6; 12; 18; 24; 27];
                GroupResult.frame_uris :=
                  replicate 6 "out/groups/group001/frame.jpg";
                GroupResult.pano_uri := None |}] |}.
Proof. vm_compute. reflexivity. Qed.

Example detect_closed_capture :
  detect_pan_groups_from_video blue_channel always_sharp always_pan_right
    join_slash closed_capture group_name frame_name pano_name echo_save
    failing_stitch echo_upload "in.mp4" "out/" Settings.empty
  = Err (RuntimeError "Failed to open video").
Proof. reflexivity. Qed.

Lemma C6_pano_uri_only_after_gate_witness :
  export_group blue_channel join_slash group_name frame_name pano_name
    echo_save failing_stitch echo_upload cfg_stitch_on sampled3 "out/" 1
    (1, [0; 1; 2]%nat)
  = Ok group3_result.
Proof.
  refine (proj1 (proj2
    (C6_pano_uri_only_after_gate blue_channel always_sharp always_pan_right
       join_slash closed_capture group_name frame_name pano_name echo_save
       failing_stitch echo_upload cfg_stitch_on sampled3 "out/" 1 1
       [0; 1; 2]%nat))
    [0; 2]%nat
    [("out/groups/group001/frame.jpg", 0); ("out/groups/group001/frame.jpg", 6)]
    [wide_gray; wide_gray] _ _ _ _).
  - reflexivity.
  - reflexivity.
  - reflexivity.
  - apply (stitch_failed _ _ _ 1 (Gray [])); [cbn; lia|reflexivity|discriminate].
Defined.

Lemma C8_export_overlap_target_unread_witness :
  differ_only_in_overlap_target Settings.empty settings_overlap_only
  /\ detect_pan_groups_from_video blue_channel always_sharp always_pan_right
       join_slash thirty_frames group_name frame_name pano_name echo_save
       failing_stitch echo_upload "in.mp4" "out/" Settings.empty
     = detect_pan_groups_from_video blue_channel always_sharp always_pan_right
         join_slash thirty_frames group_name frame_name pano_name echo_save
         failing_stitch echo_upload "in.mp4" "out/" settings_overlap_only.
Proof.
  assert (Hd : differ_only_in_overlap_target Settings.empty
                 settings_overlap_only) by (repeat split).
  split; [exact Hd|].
  exact (proj1 (C8_export_overlap_target_unread blue_channel always_sharp
                  always_pan_right join_slash thirty_frames group_name
                  frame_name pano_name echo_save failing_stitch echo_upload
                  "in.mp4" "out/" _ _ Hd)).
Defined.

(** * Further properties of the pipeline *)

(** ** Frame sampler *)

Section Sampler.

Context (gray_of_bgr : Z * Z * Z -> Z) (laplacian_var : ndarray -> float).

Local Abbreviation sample := (sample_frames gray_of_bgr laplacian_var).
Local Abbreviation keeps := (sampler_keeps gray_of_bgr laplacian_var).

(** The loop only appends; what it appends are the kept frames of the rest
    of the stream, in increasing frame order. *)
Lemma sample_frames_appends cfg rest fidx acc out :
  sample cfg rest fidx acc = Ok out ->
  exists new,
    out = acc ++ new
    /\ (forall entry, entry ∈ new <-> keeps cfg rest fidx entry)
    /\ StronglySorted Z.lt (map fst new).
Proof.
  revert fidx acc out. induction rest as [|frame rest IH];
    intros fidx acc out; cbn [sample_frames].
  - intros [= <-]. exists []. rewrite app_nil_r. split; [reflexivity|].
    split; [|constructor]. intros entry. split.
    + intros Hin. inversion Hin.
    + intros (_ & Hlook & _). rewrite lookup_nil in Hlook. discriminate.
  - unfold py_mod. destruct (decide (sample_every cfg = 0)) as [|Hk];
      [discriminate|].
    cbn [mbind result_bind].
    assert (Hshift : forall entry,
               keeps cfg rest (fidx + 1) entry ->
               keeps cfg (frame :: rest) fidx entry /\ fidx < entry.1).
    { intros [f img] (Hle & Hlook & Hmod & Hsharp). cbn [fst snd] in *.
      split; [|lia]. split; [cbn; lia|]. split; [|auto].
      cbn [fst snd]. replace (Z.to_nat (f - fidx)) with (S (Z.to_nat (f - (fidx + 1))))
        by lia.
      exact Hlook. }
    assert (Hunshift : forall entry,
               keeps cfg (frame :: rest) fidx entry -> entry.1 <> fidx ->
               keeps cfg rest (fidx + 1) entry).
    { intros [f img] (Hle & Hlook & Hmod & Hsharp) Hne. cbn [fst snd] in *.
      split; [cbn; lia|]. split; [|auto]. cbn [fst snd].
      replace (Z.to_nat (f - fidx)) with (S (Z.to_nat (f - (fidx + 1))))
        in Hlook by lia.
      exact Hlook. }
    assert (Hhead : forall entry,
               keeps cfg (frame :: rest) fidx entry -> entry.1 = fidx ->
               entry = (fidx, frame)).
    { intros [f img] (Hle & Hlook & _) Hf. cbn [fst snd] in *. subst f.
      rewrite Z.sub_diag in Hlook. change (Z.to_nat 0) with 0%nat in Hlook.
      cbn in Hlook. injection Hlook as ->. reflexivity. }
    assert (Hskip : forall acc',
               (fidx mod sample_every cfg = 0 ->
                sharp_frame gray_of_bgr laplacian_var cfg frame -> False) ->
               sample cfg rest (fidx + 1) acc' = Ok out ->
               exists new,
                 out = acc' ++ new
                 /\ (forall entry,
                       entry ∈ new <-> keeps cfg (frame :: rest) fidx entry)
                 /\ StronglySorted Z.lt (map fst new)).
    { intros acc' Hnot Hrec.
      apply IH in Hrec as (new & -> & Hnew & Hsorted).
      exists new. split; [reflexivity|]. split; [|exact Hsorted].
      intros entry. rewrite Hnew. split.
      - intros Hk'. apply Hshift. exact Hk'.
      - intros Hk'. apply Hunshift; [exact Hk'|].
        intros Hf. pose proof (Hhead entry Hk' Hf) as ->.
        destruct Hk' as (_ & _ & Hmod & Hsharp). auto. }
    destruct (decide (fidx mod sample_every cfg = 0)) as [Hmod|Hmod].
    + destruct (cvtColor_BGR2GRAY gray_of_bgr frame) as [gray|] eqn:Hgray;
        [|discriminate].
      cbn [mbind result_bind].
      destruct (frame_is_sharp laplacian_var gray (sharp_thr cfg)) eqn:Hsharp.
      * intros Hrec. apply IH in Hrec as (new & -> & Hnew & Hsorted).
        exists ((fidx, frame) :: new). rewrite <- app_assoc.
        split; [reflexivity|]. split.
        -- intros entry. rewrite elem_of_cons, Hnew. split.
           ++ intros [-> | Hk'].
              ** split; [cbn; lia|]. cbn [fst snd]. rewrite Z.sub_diag.
                 split; [reflexivity|]. split; [exact Hmod|].
                 exists gray. auto.
              ** apply Hshift. exact Hk'.
           ++ intros Hk'. destruct (decide (entry.1 = fidx)) as [Hf|Hf].
              ** left. apply Hhead; assumption.
              ** right. apply Hunshift; assumption.
        -- cbn [map fst]. constructor; [exact Hsorted|].
           apply Forall_forall. intros f Hf.
           apply list_elem_of_In, in_map_iff in Hf as (entry & <- & Hin).
           apply list_elem_of_In, Hnew, Hshift in Hin. lia.
      * apply Hskip. intros _ (gray' & Hgray' & Hsharp'). congruence.
    + apply Hskip. intros Hm. contradiction.
Qed.

(** X1: what the sampler returns is exactly the sharp frames at the
    multiples of the stride, each with its decoded frame number, in strictly
    increasing frame order. *)
Theorem X1_sampler_keeps_sharp_multiples cfg stream sampled :
  sample cfg stream 0 [] = Ok sampled ->
  (forall f img,
      (f, img) ∈ sampled <->
      0 <= f
      /\ stream !! Z.to_nat f = Some img
      /\ f mod sample_every cfg = 0
      /\ sharp_frame gray_of_bgr laplacian_var cfg img)
  /\ StronglySorted Z.lt (map fst sampled).
Proof.
  intros Hs. apply sample_frames_appends in Hs as (new & -> & Hnew & Hsorted).
  cbn [app]. split; [|exact Hsorted].
  intros f img. rewrite Hnew. unfold sampler_keeps. cbn [fst snd].
  rewrite Z.sub_0_r. reflexivity.
Qed.

(** X2: a zero stride makes the sampler raise [ZeroDivisionError] as soon
    as one frame is read, whatever the frame; with a nonzero stride and
    decoded colour frames it returns. *)
Theorem X2_sampler_stride_errors cfg stream fidx acc :
  (sample_every cfg = 0 -> stream <> [] ->
   sample cfg stream fidx acc = Err ZeroDivisionError)
  /\ (sample_every cfg <> 0 -> Forall decoded_frame stream ->
      exists sampled, sample cfg stream fidx acc = Ok sampled).
Proof.
  split.
  - intros Hk Hne. destruct stream as [|frame rest]; [contradiction|].
    cbn [sample_frames]. unfold py_mod.
    destruct (decide (sample_every cfg = 0)); [reflexivity|contradiction].
  - intros Hk Hall. revert fidx acc.
    induction Hall as [|frame rest Hdec _ IH]; intros fidx acc;
      cbn [sample_frames]; [eauto|].
    unfold py_mod. destruct (decide (sample_every cfg = 0)); [contradiction|].
    cbn [mbind result_bind].
    destruct (decide (fidx mod sample_every cfg = 0)); [|apply IH].
    destruct Hdec as (rows & -> & Hrows). cbn [cvtColor_BGR2GRAY].
    destruct (decide (concat rows = [])); [contradiction|].
    cbn [mbind result_bind]. destruct (frame_is_sharp _ _ _); apply IH.
Qed.

End Sampler.

Lemma X1_sampler_keeps_sharp_multiples_witness :
  exists sampled,
    sample_frames blue_channel always_sharp default_cfg
      (replicate 7 bgr_frame) 0 [] = Ok sampled
    /\ StronglySorted Z.lt (map fst sampled).
Proof.
  eexists. split; [reflexivity|].
  refine (proj2 (X1_sampler_keeps_sharp_multiples blue_channel always_sharp
                   default_cfg (replicate 7 bgr_frame) _ _)).
  reflexivity.
Defined.

Lemma X2_sampler_stride_errors_witness :
  exists sampled,
    sample_frames blue_channel always_sharp default_cfg
      (replicate 7 bgr_frame) 0 [] = Ok sampled.
Proof.
  refine (proj2 (X2_sampler_stride_errors blue_channel always_sharp
                   default_cfg (replicate 7 bgr_frame) 0 []) _ _).
  - discriminate.
  - repeat constructor; eexists; (split; [reflexivity|discriminate]).
Defined.

(** ** Pair metrics *)

Lemma mapM_Err_inv {A B : Type} (f : A -> result B) (l : list A)
  (e : py_exception) :
  mapM f l = Err e -> exists x, x ∈ l /\ f x = Err e.
Proof.
  induction l as [|x l IH]; cbn; [discriminate|].
  destruct (f x) as [y|e'] eqn:Hx; cbn.
  - destruct (mapM f l) as [k|e''] eqn:Hl; cbn; [discriminate|].
    intros [= ->]. destruct (IH eq_refl) as (x' & Hin & Hx').
    exists x'. split; [right; exact Hin|exact Hx'].
  - intros [= ->]. exists x. split; [left|exact Hx].
Qed.

Lemma mapM_returns {A B : Type} (f : A -> result B) (l : list A) :
  (forall x, x ∈ l -> exists y, f x = Ok y) -> exists k, mapM f l = Ok k.
Proof.
  intros Hall. destruct (mapM f l) as [k|e] eqn:Hm; [eauto|].
  apply mapM_Err_inv in Hm as (x & Hin & Hx).
  destruct (Hall x Hin) as [y Hy]. congruence.
Qed.

Section PairMetricsMore.

Context
  (pair_motion_metrics :
     ndarray -> ndarray -> string -> result (option MotionSummary)).

Local Abbreviation metric_at := (pair_metric_at pair_motion_metrics).
Local Abbreviation metrics := (compute_pair_metrics pair_motion_metrics).

Lemma pair_metric_at_Ok cfg sampled (i : nat) p :
  metric_at cfg sampled i = Ok p ->
  exists f1 img1 f2 img2 summary,
    sampled !! i = Some (f1, img1)
    /\ sampled !! S i = Some (f2, img2)
    /\ pair_motion_metrics img1 img2 (feature cfg) = Ok summary
    /\ classifies summary cfg p.
Proof.
  unfold pair_metric_at, py_index.
  destruct (sampled !! i) as [[f1 img1]|]; [|discriminate].
  destruct (sampled !! S i) as [[f2 img2]|]; [|discriminate].
  cbn [mbind result_bind].
  destruct (pair_motion_metrics img1 img2 (feature cfg)) as [summary|] eqn:Hm;
    [|discriminate].
  cbn [mbind result_bind]. intros Hp.
  exists f1, img1, f2, img2, summary.
  split; [reflexivity|]. split; [reflexivity|]. split; [exact Hm|].
  unfold classifies. destruct summary as [m|].
  - destruct (is_horizontal_pan (Some m) cfg) as [[ok score]|];
      [|discriminate].
    cbn in Hp. injection Hp as <-. eauto.
  - injection Hp as <-. reflexivity.
Qed.

Lemma pair_metric_at_Err cfg sampled (i : nat) e :
  (S i < length sampled)%nat ->
  metric_at cfg sampled i = Err e ->
  exists f1 img1 f2 img2,
    sampled !! i = Some (f1, img1)
    /\ sampled !! S i = Some (f2, img2)
    /\ (pair_motion_metrics img1 img2 (feature cfg) = Err e
        \/ (e = ZeroDivisionError /\ zero_divisor cfg
            /\ exists m,
                 pair_motion_metrics img1 img2 (feature cfg) = Ok (Some m))).
Proof.
  intros Hlt. unfold pair_metric_at, py_index.
  destruct (sampled !! i) as [[f1 img1]|] eqn:E1.
  2: { apply lookup_ge_None in E1. lia. }
  destruct (sampled !! S i) as [[f2 img2]|] eqn:E2.
  2: { apply lookup_ge_None in E2. lia. }
  cbn [mbind result_bind]. intros Herr.
  exists f1, img1, f2, img2. split; [reflexivity|]. split; [reflexivity|].
  destruct (pair_motion_metrics img1 img2 (feature cfg)) as [[m|]|e0] eqn:Hm;
    cbn [mbind result_bind] in Herr.
  - right.
    destruct (is_horizontal_pan (Some m) cfg) as [[ok score]|e'] eqn:Hpan;
      [discriminate|].
    cbn in Herr. injection Herr as ->.
    assert (Hzero : zero_divisor cfg).
    { unfold zero_divisor.
      destruct (tau_v cfg =? 0)%float eqn:Hv; [auto|].
      destruct (tau_scale cfg =? 0)%float eqn:Hs; [auto|].
      destruct (tau_parallax cfg =? 0)%float eqn:Hp; [auto|].
      rewrite (is_horizontal_pan_nonzero m cfg Hv Hs Hp) in Hpan.
      discriminate Hpan. }
    pose proof (proj2 (is_horizontal_pan_raises_iff m cfg) Hzero) as Hraise.
    rewrite Hraise in Hpan. injection Hpan as <-.
    split; [reflexivity|]. split; [exact Hzero|]. exists m. reflexivity.
  - discriminate.
  - left. injection Herr as ->. reflexivity.
Qed.

(** X3: [pair_metrics] has one entry per consecutive pair of sampled
    frames, and entry [i] is the classification of the images of frames [i]
    and [i+1]: [(False, 0, None)] without a summary, the classifier's answer
    with the summary otherwise. *)
Theorem X3_pair_metrics_classify_neighbours cfg sampled pm :
  metrics cfg sampled = Ok pm ->
  length pm = (length sampled - 1)%nat
  /\ forall (i : nat) p,
       pm !! i = Some p ->
       exists f1 img1 f2 img2 summary,
         sampled !! i = Some (f1, img1)
         /\ sampled !! S i = Some (f2, img2)
         /\ pair_motion_metrics img1 img2 (feature cfg) = Ok summary
         /\ classifies summary cfg p.
Proof.
  intros Hpm. split.
  - apply compute_pair_metrics_shape in Hpm as [Hlen _]. exact Hlen.
  - unfold compute_pair_metrics in Hpm. apply mapM_Ok_Forall2 in Hpm.
    intros i p Hi.
    destruct (Forall2_lookup_r _ _ _ _ _ Hpm Hi) as (k & Hk & Hat).
    apply lookup_seq in Hk as [-> _]. cbn in Hat.
    apply pair_metric_at_Ok. exact Hat.
Qed.

(** X4: motion analysis returns whenever [pair_motion_metrics] returns on
    every pair of neighbouring sampled frames and no divisor threshold is
    zero; an exception it raises is the one [pair_motion_metrics] raised on
    a neighbouring pair, or the classifier's [ZeroDivisionError], which needs
    a zero divisor threshold and a pair that has a summary. *)
Theorem X4_pair_metrics_errors cfg sampled :
  (~ zero_divisor cfg ->
   (forall (i : nat) f1 img1 f2 img2,
      sampled !! i = Some (f1, img1) -> sampled !! S i = Some (f2, img2) ->
      exists summary,
        pair_motion_metrics img1 img2 (feature cfg) = Ok summary) ->
   exists pm, metrics cfg sampled = Ok pm)
  /\ (forall e,
        metrics cfg sampled = Err e ->
        exists (i : nat) f1 img1 f2 img2,
          sampled !! i = Some (f1, img1)
          /\ sampled !! S i = Some (f2, img2)
          /\ (pair_motion_metrics img1 img2 (feature cfg) = Err e
              \/ (e = ZeroDivisionError /\ zero_divisor cfg
                  /\ exists m,
                       pair_motion_metrics img1 img2 (feature cfg)
                       = Ok (Some m)))).
Proof.
  assert (Herr : forall e,
             metrics cfg sampled = Err e ->
             exists (i : nat) f1 img1 f2 img2,
               sampled !! i = Some (f1, img1)
               /\ sampled !! S i = Some (f2, img2)
               /\ (pair_motion_metrics img1 img2 (feature cfg) = Err e
                   \/ (e = ZeroDivisionError /\ zero_divisor cfg
                       /\ exists m,
                            pair_motion_metrics img1 img2 (feature cfg)
                            = Ok (Some m)))).
  { intros e He. unfold compute_pair_metrics in He.
    apply mapM_Err_inv in He as (i & Hin & Hat).
    apply elem_of_seq in Hin.
    apply pair_metric_at_Err in Hat; [|lia]. exists i. exact Hat. }
  split; [|exact Herr].
  intros Hnz Hret. destruct (metrics cfg sampled) as [pm|e] eqn:Hm; [eauto|].
  destruct (Herr e eq_refl)
    as (i & f1 & img1 & f2 & img2 & H1 & H2 & [Hraise | (_ & Hz & _)]).
  - destruct (Hret i f1 img1 f2 img2 H1 H2) as [summary Hs]. congruence.
  - contradiction.
Qed.

End PairMetricsMore.

Lemma X3_pair_metrics_classify_neighbours_witness :
  length pm3 = (length sampled3 - 1)%nat.
Proof.
  refine (proj1 (X3_pair_metrics_classify_neighbours always_pan_right
                   default_cfg sampled3 pm3 _)).
  reflexivity.
Defined.

Lemma X4_pair_metrics_errors_witness :
  exists pm, compute_pair_metrics always_pan_right default_cfg sampled3 = Ok pm.
Proof.
  refine (proj1 (X4_pair_metrics_errors always_pan_right default_cfg
                   sampled3) _ _).
  - intros [E | [E | E]]; discriminate E.
  - intros i f1 img1 f2 img2 _ _. eexists. reflexivity.
Defined.

(** ** Group builder: runs, the length filter, sequences without pans *)

Lemma direction_of_values m d : direction_of m = Ok d -> d = 1 \/ d = -1.
Proof.
  destruct m as [m|]; [|discriminate]. cbn.
  destruct (0 <=? median_u m)%float; intros [= <-]; auto.
Qed.

Lemma build_groups_from_runs ml pm i groups gs :
  Forall (group_is_run ml pm) groups ->
  build_groups_from ml pm i groups = Ok gs ->
  Forall (group_is_run ml pm) gs.
Proof.
  remember (length pm - i)%nat as n eqn:Hn.
  revert i groups Hn. induction n as [n IH] using lt_wf_ind.
  intros i groups Hn Hinv. rewrite build_groups_from_eq.
  destruct (decide (i < length pm)%nat) as [Hlt|Hge];
    [|intros [= <-]; exact Hinv].
  destruct (pm !! i) as [[[[] s] m]|] eqn:E; [| |discriminate].
  - destruct (direction_of m) as [d|] eqn:Hd; [|discriminate].
    destruct (extend_group pm d (S i) [i; S i]) as [[j g]|] eqn:Hext;
      [|discriminate].
    apply extend_group_inv in Hext as (Hle & Hg & Hrun & Hstop & _).
    rewrite seed_positions in Hg by lia. subst g.
    apply (IH (length pm - S j)%nat); [lia|reflexivity|].
    rewrite close_group_positions. destruct (decide _) as [Hlen|]; [|exact Hinv].
    apply Forall_app. split; [exact Hinv|]. constructor; [|constructor].
    exists i, j. cbn [fst snd]. split; [lia|]. split; [reflexivity|].
    split; [|split; [exact Hstop|split]].
    + intros p Hp. destruct (decide (p = i)) as [->|Hne]; [|apply Hrun; lia].
      destruct m as [m|]; [|discriminate]. exists s, m. auto.
    + rewrite length_positions by lia. exact Hlen.
    + eapply direction_of_values. exact Hd.
  - apply (IH (length pm - S i)%nat); [lia|reflexivity|exact Hinv].
Qed.

(** X5: every emitted group is a run of pans of one direction: the pairs
    from its first to its last-but-one position are pans of the group's
    direction, the pair at its last position is not (or the sequence ends
    there), it has at least [min_group_len] positions, and its direction is
    [1] or [-1]. *)
Theorem X5_groups_are_same_direction_runs ml (pm : list pair_metric) gs :
  build_groups ml pm = Ok gs -> Forall (group_is_run ml pm) gs.
Proof. apply build_groups_from_runs. constructor. Qed.

Lemma X5_groups_are_same_direction_runs_witness :
  Forall (group_is_run 2 [T_right; T_left; T_left; T_right])
    [(1, [0; 1]%nat); (-1, [2; 3]%nat)].
Proof.
  apply (X5_groups_are_same_direction_runs 2
           [T_right; T_left; T_left; T_right]).
  reflexivity.
Defined.

Lemma close_group_filter ml d g acc :
  close_group ml d g (filter (long_enough ml) acc)
  = filter (long_enough ml) (close_group 0 d g acc).
Proof.
  unfold close_group.
  destruct (decide (0 <= Z.of_nat (length (sorted_set g)))); [|lia].
  rewrite filter_app, filter_cons, filter_nil.
  destruct (decide (ml <= Z.of_nat (length (sorted_set g)))) as [Hl|Hl];
    destruct (decide (long_enough ml (d, sorted_set g))) as [Hl'|Hl'];
    unfold long_enough in Hl'; cbn [snd] in Hl';
    try contradiction; [reflexivity|]. rewrite app_nil_r. reflexivity.
Qed.

Lemma build_groups_from_filter ml pm i acc :
  build_groups_from ml pm i (filter (long_enough ml) acc)
  = match build_groups_from 0 pm i acc with
    | Ok raw => Ok (filter (long_enough ml) raw)
    | Err e => Err e
    end.
Proof.
  remember (length pm - i)%nat as n eqn:Hn.
  revert i acc Hn. induction n as [n IH] using lt_wf_ind. intros i acc Hn.
  rewrite (build_groups_from_eq ml), (build_groups_from_eq 0).
  destruct (decide (i < length pm)%nat) as [Hlt|Hge]; [|reflexivity].
  destruct (pm !! i) as [[[[] s] m]|] eqn:E; [| |reflexivity].
  - destruct (direction_of m) as [d|]; [|reflexivity].
    destruct (extend_group pm d (S i) [i; S i]) as [[j g]|] eqn:Hext;
      [|reflexivity].
    apply extend_group_inv in Hext as (Hle & _).
    rewrite close_group_filter.
    apply (IH (length pm - S j)%nat); [lia|reflexivity].
  - apply (IH (length pm - S i)%nat); [lia|reflexivity].
Qed.

(** X6: [min_group_len] only filters. The groups built with a minimum
    length are the groups built without one (minimum 0) that have at least
    that many positions, in the same order; where groups start and end does
    not depend on it, nor does whether the builder raises. *)
Theorem X6_min_group_len_only_filters ml (pm : list pair_metric) :
  build_groups ml pm
  = match build_groups 0 pm with
    | Ok raw => Ok (filter (long_enough ml) raw)
    | Err e => Err e
    end.
Proof.
  unfold build_groups. rewrite <- build_groups_from_filter. reflexivity.
Qed.

Lemma build_groups_from_no_pan ml pm i acc :
  no_pan pm -> build_groups_from ml pm i acc = Ok acc.
Proof.
  intros Hno. remember (length pm - i)%nat as n eqn:Hn.
  revert i Hn. induction n as [n IH] using lt_wf_ind. intros i Hn.
  rewrite build_groups_from_eq.
  destruct (decide (i < length pm)%nat) as [Hlt|Hge]; [|reflexivity].
  destruct (pm !! i) as [[[b s] m]|] eqn:E.
  - assert (Hb : b = false).
    { apply (Hno (b, s, m)). eapply list_elem_of_lookup_2. exact E. }
    subst b. apply (IH (length pm - S i)%nat); [lia|reflexivity].
  - apply lookup_ge_None in E. lia.
Qed.

Lemma build_groups_from_first_pan ml pm i acc gs :
  ml <= 2 ->
  build_groups_from ml pm i acc = Ok gs -> gs = acc ->
  forall (k : nat) p, (i <= k)%nat -> pm !! k = Some p -> p.1.1 = false.
Proof.
  intros Hml. remember (length pm - i)%nat as n eqn:Hn.
  revert i Hn. induction n as [n IH] using lt_wf_ind. intros i Hn.
  rewrite build_groups_from_eq.
  destruct (decide (i < length pm)%nat) as [Hlt|Hge].
  2: { intros _ _ k p Hk Hp. apply lookup_lt_Some in Hp. lia. }
  destruct (pm !! i) as [[[[] s] m]|] eqn:E; [| |discriminate].
  - destruct (direction_of m) as [d|]; [|discriminate].
    destruct (extend_group pm d (S i) [i; S i]) as [[j g]|] eqn:Hext;
      [|discriminate].
    apply extend_group_inv in Hext as (Hle & Hg & _).
    rewrite seed_positions in Hg by lia. subst g.
    rewrite close_group_positions.
    destruct (decide (ml <= Z.of_nat (j + 1 - i))) as [_|Hshort]; [|lia].
    intros Hrec Heq. apply build_groups_from_new in Hrec as (new & Hgs & _).
    exfalso. rewrite Heq in Hgs.
    apply (f_equal length) in Hgs. rewrite !length_app in Hgs. cbn in Hgs. lia.
  - intros Hrec Heq k p Hk Hp.
    destruct (decide (k = i)) as [->|Hne].
    + rewrite E in Hp. injection Hp as <-. reflexivity.
    + eapply (IH (length pm - S i)%nat); [lia|reflexivity|exact Hrec|exact Heq| |exact Hp].
      lia.
Qed.

(** X7: a sequence without pan entries yields no group and no error; and
    when [min_group_len <= 2], an empty result means the sequence has no pan
    entry at all. *)
Theorem X7_no_group_iff_no_pan ml (pm : list pair_metric) :
  (no_pan pm -> build_groups ml pm = Ok [])
  /\ (ml <= 2 -> build_groups ml pm = Ok [] -> no_pan pm).
Proof.
  split.
  - apply build_groups_from_no_pan.
  - intros Hml Hgs p Hin. apply list_elem_of_lookup in Hin as [k Hk].
    eapply (build_groups_from_first_pan ml pm 0 [] []);
      [exact Hml|exact Hgs|reflexivity| |exact Hk]. lia.
Qed.

Lemma X7_no_group_iff_no_pan_witness :
  build_groups 3 [F_pair; F_pair] = Ok [].
Proof.
  refine (proj1 (X7_no_group_iff_no_pan 3 [F_pair; F_pair]) _).
  intros p Hin. apply list_elem_of_In in Hin.
  destruct Hin as [<- | [<- | []]]; reflexivity.
Defined.

(** ** Export selector: subsequence and spacing *)

Lemma spaced_nil step : spaced step [].
Proof. intros i a b Ha. rewrite lookup_nil in Ha. discriminate. Qed.

Lemma spaced_snoc step out (o x : nat) :
  spaced step out -> last out = Some o ->
  step <= Z.of_nat x - Z.of_nat o -> spaced step (out ++ [x]).
Proof.
  intros Hsp Hlast Hstep i a b Ha Hb.
  assert (Hi : (S i < length (out ++ [x]))%nat)
    by (eapply lookup_lt_Some; exact Hb).
  rewrite length_app in Hi. change (length [x]) with 1%nat in Hi.
  rewrite lookup_app_l in Ha by lia.
  destruct (decide (S i < length out)%nat) as [Hlt|Hge].
  - rewrite lookup_app_l in Hb by lia. eapply Hsp; eassumption.
  - rewrite lookup_app_r in Hb by lia.
    replace (S i - length out)%nat with 0%nat in Hb by lia.
    injection Hb as <-.
    rewrite last_lookup in Hlast.
    replace (pred (length out)) with i in Hlast by lia.
    rewrite Hlast in Ha. injection Ha as <-. exact Hstep.
Qed.

Lemma spaced_singleton step (x : nat) : spaced step [x].
Proof.
  intros i a b _ Hb. apply lookup_lt_Some in Hb. cbn in Hb. lia.
Qed.

Lemma pick_loop_invariant step (l : list nat) :
  pick_loop_inv step l (foldl (pick_step step) ([], None) l).
Proof.
  induction l as [|x l IH] using rev_ind.
  - cbn. split; [reflexivity|]. split; [constructor|].
    split; [apply spaced_nil|]. intros p x Hl. destruct p; discriminate.
  - rewrite foldl_snoc.
    destruct (foldl (pick_step step) ([], None) l) as [out lst].
    destruct IH as (Hlst & Hsub & Hsp & _). cbn [fst snd] in *. subst lst.
    unfold pick_step.
    destruct (last out) as [o|] eqn:Ho.
    + destruct (decide (step <= Z.of_nat x - Z.of_nat o)) as [Hstep|Hstep].
      * split; [cbn; rewrite last_snoc; reflexivity|]. cbn [fst snd].
        split; [apply sublist_app; [exact Hsub|reflexivity]|].
        split; [eapply spaced_snoc; eassumption|].
        intros p y Hl. apply app_inj_tail in Hl as [_ <-].
        left. apply last_snoc.
      * split; [cbn; symmetry; exact Ho|]. cbn [fst snd].
        split; [apply sublist_inserts_r; exact Hsub|].
        split; [exact Hsp|].
        intros p y Hl. apply app_inj_tail in Hl as [<- <-].
        right. split; [exact Hsub|]. exists o. split; [exact Ho|lia].
    + apply last_None in Ho. subst out.
      split; [reflexivity|]. cbn [fst snd app].
      split; [apply sublist_inserts_l; reflexivity|].
      split; [apply spaced_singleton|].
      intros p y Hl. apply app_inj_tail in Hl as [_ <-]. left. reflexivity.
Qed.

(** What [pick_subset] returns, in terms of the loop state: the kept
    indices, followed by the final index when it was not kept. *)
Lemma pick_subset_Ok_inv (l : list nat) step res :
  pick_subset l step = Ok res ->
  exists body o x,
    pick_loop_inv step l (body, Some o)
    /\ last body = Some o /\ last l = Some x
    /\ ((o = x /\ res = body) \/ (o <> x /\ res = body ++ [x])).
Proof.
  unfold pick_subset. pose proof (pick_loop_invariant step l) as Hinv.
  destruct (foldl (pick_step step) ([], None) l) as [body lst].
  unfold py_last. destruct (last body) as [o|] eqn:Ho; [|discriminate].
  destruct (last l) as [x|] eqn:Hx; [|discriminate].
  cbn [mbind result_bind]. intros Hres.
  exists body, o, x.
  assert (Hlst : lst = Some o).
  { destruct Hinv as (Hl & _). cbn in Hl. congruence. }
  subst lst. split; [exact Hinv|]. split; [exact Ho|].
  split; [reflexivity|].
  destruct (decide (o ≠ x)) as [Hne|Heq]; injection Hres as <-.
  - right. auto.
  - left. split; [|reflexivity]. destruct (decide (o = x)); tauto.
Qed.

Lemma pick_subset_sublist (indices : list nat) step out :
  pick_subset indices step = Ok out -> out `sublist_of` indices.
Proof.
  intros Hout.
  apply pick_subset_Ok_inv in Hout
    as (body & o & x & (_ & Hsub & _ & Hfinal) & Ho & Hx & Hres).
  cbn [fst snd] in *.
  destruct Hres as [[_ ->] | [Hne ->]]; [exact Hsub|].
  apply last_Some in Hx as [p ->].
  destruct (Hfinal p x eq_refl) as [Hkept | [Hsubp _]]; [congruence|].
  apply sublist_app; [exact Hsubp|reflexivity].
Qed.

Lemma sublist_StronglySorted_lt (l1 l2 : list nat) :
  l1 `sublist_of` l2 -> StronglySorted lt l2 -> StronglySorted lt l1.
Proof.
  induction 1 as [|y l1 l2 Hsub1 IH|y l1 l2 Hsub' IH]; intros Hsorted.
  - constructor.
  - apply StronglySorted_inv in Hsorted as [Hs Hall].
    constructor; [apply IH; exact Hs|].
    apply Forall_forall. intros z Hz.
    rewrite Forall_forall in Hall. apply Hall.
    eapply elem_of_sublist; eassumption.
  - apply StronglySorted_inv in Hsorted as [Hs _]. apply IH. exact Hs.
Qed.

(** X8: the list [pick_subset] returns is a subsequence of its input: it
    keeps positions in their order and never invents or repeats one. In
    particular it is no longer than the input and, on a strictly increasing
    input, strictly increasing. *)
Theorem X8_pick_subset_is_subsequence (indices : list nat) step out :
  pick_subset indices step = Ok out ->
  out `sublist_of` indices
  /\ (length out <= length indices)%nat
  /\ (StronglySorted lt indices -> StronglySorted lt out).
Proof.
  intros Hout. apply pick_subset_sublist in Hout.
  split; [exact Hout|]. split; [apply sublist_length; exact Hout|].
  apply sublist_StronglySorted_lt. exact Hout.
Qed.

Lemma X8_pick_subset_is_subsequence_witness :
  [3; 5; 7; 8]%nat `sublist_of` [3; 4; 5; 6; 7; 8]%nat.
Proof.
  refine (proj1 (X8_pick_subset_is_subsequence [3; 4; 5; 6; 7; 8]%nat 2
                   [3; 5; 7; 8]%nat _)).
  reflexivity.
Defined.

(** X9: neighbouring kept positions are at least [target_step] apart,
    except for the final position: when the loop did not keep it, it is
    appended although it is closer than [target_step] to the last kept
    one. *)
Theorem X9_pick_subset_spacing (indices : list nat) step out :
  pick_subset indices step = Ok out ->
  exists body,
    spaced step body
    /\ (out = body
        \/ exists o x,
             last body = Some o /\ last indices = Some x
             /\ out = body ++ [x]
             /\ Z.of_nat x - Z.of_nat o < step).
Proof.
  intros Hout.
  apply pick_subset_Ok_inv in Hout
    as (body & o & x & (_ & _ & Hsp & Hfinal) & Ho & Hx & Hres).
  cbn [fst snd] in *. exists body. split; [exact Hsp|].
  destruct Hres as [[_ ->] | [Hne ->]]; [left; reflexivity|].
  right. exists o, x. split; [exact Ho|]. split; [exact Hx|].
  split; [reflexivity|].
  apply last_Some in Hx as [p ->].
  destruct (Hfinal p x eq_refl) as [Hkept | (_ & o' & Ho' & Hclose)];
    [congruence|].
  rewrite Ho in Ho'. injection Ho' as <-. exact Hclose.
Qed.

Lemma X9_pick_subset_spacing_witness :
  exists body,
    spaced 2 body
    /\ ([3; 5; 7; 8]%nat = body
        \/ exists o x,
             last body = Some o /\ last [3; 4; 5; 6; 7; 8]%nat = Some x
             /\ [3; 5; 7; 8]%nat = body ++ [x]
             /\ Z.of_nat x - Z.of_nat o < 2).
Proof.
  apply (X9_pick_subset_spacing [3; 4; 5; 6; 7; 8]%nat 2 [3; 5; 7; 8]%nat).
  reflexivity.
Defined.

(** ** Export selector on the positions of a group *)

Lemma StronglySorted_lt_seq (a n : nat) : StronglySorted lt (seq a n).
Proof.
  revert a. induction n as [|n IH]; intros a; cbn [seq]; constructor.
  - apply IH.
  - apply Forall_forall. intros x Hx. apply elem_of_seq in Hx. lia.
Qed.

(** The loop with step 2 over consecutive indices, from a kept index [a] at
    even offset from [i]: the indices at even offset are kept. *)
Lemma pick_loop_consecutive (i a b m : nat) out0 :
  (i <= a)%nat -> Nat.even (a - i) = true -> (b = S a \/ b = S (S a)) ->
  foldl (pick_step 2) (out0, Some a) (seq b m)
  = (out0 ++ filter (fun x => Nat.even (x - i) = true) (seq b m),
     Some (default a
             (last (filter (fun x => Nat.even (x - i) = true) (seq b m))))).
Proof.
  revert a b out0. induction m as [|m IH]; intros a b out0 Hia Heven Hb.
  - cbn. rewrite app_nil_r. reflexivity.
  - cbn [seq foldl]. unfold pick_step at 2. rewrite filter_cons.
    destruct Hb as [-> | ->].
    + destruct (decide (2 <= Z.of_nat (S a) - Z.of_nat a)); [lia|].
      assert (Hodd : Nat.even (S a - i) = false).
      { replace (S a - i)%nat with (S (a - i)) by lia.
        rewrite Nat.even_succ, <- Nat.negb_even, Heven. reflexivity. }
      destruct (decide (Nat.even (S a - i) = true)) as [Hc|_]; [congruence|].
      apply IH; [exact Hia|exact Heven|right; reflexivity].
    + destruct (decide (2 <= Z.of_nat (S (S a)) - Z.of_nat a)); [|lia].
      assert (Hev : Nat.even (S (S a) - i) = true).
      { replace (S (S a) - i)%nat with (S (S (a - i))) by lia. exact Heven. }
      destruct (decide (Nat.even (S (S a) - i) = true)) as [_|Hc];
        [|congruence].
      rewrite (IH (S (S a)) (S (S (S a))) (out0 ++ [S (S a)]));
        [|lia|exact Hev|left; reflexivity].
      rewrite <- app_assoc. cbn [app]. f_equal. f_equal.
      rewrite last_cons.
      destruct (last (filter _ (seq (S (S (S a))) m))); reflexivity.
Qed.

(** X10: on the positions [{i, ..., k}] of a group and with the step 2 the
    pipeline uses, [pick_subset] returns the positions at even offset from
    [i], together with [k], in increasing order. *)
Theorem X10_group_export_every_other (i k : nat) :
  (i <= k)%nat ->
  exists out,
    pick_subset (positions i k) 2 = Ok out
    /\ StronglySorted lt out
    /\ forall x, x ∈ out <->
         (i <= x <= k)%nat /\ (Nat.even (x - i) = true \/ x = k).
Proof.
  intros Hik.
  assert (Hpos : positions i k = i :: seq (S i) (k - i)).
  { unfold positions. replace (k + 1 - i)%nat with (S (k - i)) by lia.
    reflexivity. }
  destruct (pick_subset_endpoints i (seq (S i) (k - i)) 2)
    as (out & Hout & _ & Hlast).
  rewrite <- Hpos in Hout, Hlast. exists out. split; [exact Hout|].
  split.
  { eapply sublist_StronglySorted_lt;
      [eapply pick_subset_sublist; exact Hout|apply StronglySorted_lt_seq]. }
  assert (Hk : last (positions i k) = Some k).
  { unfold positions. replace (k + 1 - i)%nat with (S (k - i)) by lia.
    rewrite seq_S, last_snoc. f_equal. lia. }
  revert Hout. unfold pick_subset. rewrite Hpos at 1. cbn [foldl].
  unfold pick_step at 2. change ([] ++ [i]) with [i].
  rewrite (pick_loop_consecutive i i (S i) (k - i) [i]);
    [|lia|rewrite Nat.sub_diag; reflexivity|left; reflexivity].
  set (kept := filter (fun x => Nat.even (x - i) = true) (seq (S i) (k - i))).
  assert (Hkept : forall x, x ∈ i :: kept <->
                    (i <= x <= k)%nat /\ Nat.even (x - i) = true).
  { intros x. rewrite elem_of_cons. unfold kept.
    rewrite list_elem_of_filter, elem_of_seq. split.
    - intros [-> | [Hev Hx]]; [|split; [lia|exact Hev]].
      split; [lia|]. rewrite Nat.sub_diag. reflexivity.
    - intros [Hx Hev]. destruct (decide (x = i)) as [->|Hne]; [left; reflexivity|].
      right. split; [exact Hev|lia]. }
  change ([i] ++ kept) with (i :: kept).
  unfold py_last. rewrite Hk.
  destruct (last (i :: kept)) as [o|] eqn:Ho.
  2: { apply last_None in Ho. discriminate. }
  cbn [mbind result_bind].
  destruct (decide (o ≠ k)) as [Hne|Heq]; intros [= <-]; intros x.
  - change (i :: kept ++ [k]) with ((i :: kept) ++ [k]).
    rewrite elem_of_app, Hkept, list_elem_of_singleton. split.
    + intros [[Hx Hev] | ->]; [auto|]. split; [lia|auto].
    + intros [Hx [Hev | ->]]; auto.
  - assert (o = k) as -> by (destruct (decide (o = k)); tauto).
    rewrite Hkept. split; [intros [Hx Hev]; auto|].
    intros [Hx [Hev | ->]]; [auto|].
    apply Hkept. apply last_Some_elem_of. exact Ho.
Qed.

Lemma X10_group_export_every_other_witness :
  exists out,
    pick_subset (positions 0 9) 2 = Ok out
    /\ StronglySorted lt out
    /\ forall x, x ∈ out <->
         (0 <= x <= 9)%nat /\ (Nat.even (x - 0) = true \/ x = 9%nat).
Proof. apply (X10_group_export_every_other 0 9). lia. Defined.

Example pick_subset_ten_positions :
  pick_subset (positions 0 9) 2 = Ok [0; 2; 4; 6; 8; 9]%nat.
Proof. reflexivity. Qed.

Lemma select_export_of_range (cfg : Config) (g : list nat) :
  is_range g ->
  exists out,
    select_export cfg g = Ok out
    /\ (2 <= length out)%nat
    /\ head out = head g /\ last out = last g
    /\ out `sublist_of` g.
Proof.
  intros (i & k & Hik & ->).
  assert (Hpos : positions i k = i :: seq (S i) (k - i)).
  { unfold positions. replace (k + 1 - i)%nat with (S (k - i)) by lia.
    reflexivity. }
  assert (Hk : last (positions i k) = Some k).
  { unfold positions. replace (k + 1 - i)%nat with (S (k - i)) by lia.
    rewrite seq_S, last_snoc. f_equal. lia. }
  unfold select_export. destruct (export_all_in_group cfg).
  - exists (positions i k). split; [reflexivity|].
    split; [rewrite length_positions; lia|]. auto.
  - destruct (pick_subset_endpoints i (seq (S i) (k - i)) (Z.max 1 2))
      as (out & Hout & Hhd & Hlast).
    rewrite <- Hpos in Hout, Hlast. exists out. split; [exact Hout|].
    rewrite Hpos at 1. cbn [head]. rewrite Hk in Hlast |- *.
    split; [|split; [exact Hhd|split; [exact Hlast|]]].
    + destruct out as [|x [|y out]]; cbn in *; try discriminate; [|lia].
      injection Hhd as ->. injection Hlast as ->. lia.
    + eapply pick_subset_sublist. exact Hout.
Qed.

(** X11: for the positions of a group (at least two, consecutive) the
    export selection always returns, has at least two entries, starts at the
    group's first position and ends at its last; so the
    [len(frames_for_stitch) >= 2] test of the stitch block never fails for an
    emitted group. *)
Theorem X11_group_export_has_two_frames (cfg : Config) (g : list nat) :
  is_range g ->
  exists out,
    select_export cfg g = Ok out
    /\ (2 <= length out)%nat
    /\ head out = head g /\ last out = last g
    /\ out `sublist_of` g.
Proof. apply select_export_of_range. Qed.

Lemma X11_group_export_has_two_frames_witness :
  exists out,
    select_export default_cfg [4; 5; 6]%nat = Ok out
    /\ (2 <= length out)%nat
    /\ head out = head [4; 5; 6]%nat /\ last out = last [4; 5; 6]%nat
    /\ out `sublist_of` [4; 5; 6]%nat.
Proof.
  apply (X11_group_export_has_two_frames default_cfg [4; 5; 6]%nat).
  exists 4%nat, 6%nat. split; [lia|reflexivity].
Defined.

(** ** Classifier: mirrored motion *)

(** X13: the classifier does not tell left from right: the mirrored motion
    (horizontal displacement negated) gets the same [is_pan] and the same
    score, raises in the same cases, and, unless the displacement is zero
    or not a number, the opposite direction. *)
Theorem X13_mirror_symmetry (m : MotionSummary) (cfg : Config) :
  is_horizontal_pan (Some (mirror m)) cfg = is_horizontal_pan (Some m) cfg
  /\ ((median_u m =? 0)%float = false -> is_nan (median_u m) = false ->
      forall d, direction_of (Some m) = Ok d ->
                direction_of (Some (mirror m)) = Ok (- d)).
Proof.
  split.
  - unfold is_horizontal_pan, pan_ok, mirror, py_abs. cbn [inlier_ratio
      median_u median_v resid scale]. rewrite float_abs_opp. reflexivity.
  - intros Hnz Hnum d. cbn [direction_of mirror median_u].
    rewrite (float_sign_flip _ Hnz Hnum).
    destruct (0 <=? median_u m)%float; intros [= <-]; reflexivity.
Qed.

Lemma X13_mirror_symmetry_witness :
  direction_of (Some (mirror pan_right)) = Ok (- 1).
Proof.
  refine (proj2 (X13_mirror_symmetry pan_right default_cfg) _ _ 1 _);
    reflexivity.
Defined.

(** ** Quality gate: thresholds and the empty image *)

Section QualityGateMore.

Context (gray_of_bgr : Z * Z * Z -> Z).

Local Abbreviation validate := (validate_panorama_quality gray_of_bgr).

(** X14: the gate is monotone in its thresholds: an image accepted under a
    minimum ratio and a black-border limit is accepted under every smaller
    minimum ratio and every larger limit. *)
Theorem X14_gate_monotone (pano : ndarray) (r r' mb mb' : float) :
  validate pano r mb = Ok true ->
  (r' <=? r)%float = true -> (mb <=? mb')%float = true ->
  validate pano r' mb' = Ok true.
Proof.
  unfold validate_panorama_quality. destruct (shape2 pano) as [h w].
  destruct (py_int_truediv w h) as [ratio|]; [|discriminate].
  cbn [mbind result_bind].
  destruct (ratio <? r)%float eqn:Hr; [discriminate|].
  destruct (match pano with
            | BGR _ => cvtColor_BGR2GRAY gray_of_bgr pano
            | Gray _ => Ok pano
            end) as [gray|]; [|discriminate].
  cbn [mbind result_bind].
  intros [= Hmb] Hr' Hmb'.
  destruct (ratio <? r')%float eqn:Hlt.
  - rewrite (float_ltb_leb_trans _ _ _ Hlt Hr') in Hr. discriminate Hr.
  - f_equal. eapply float_leb_trans; eassumption.
Qed.

(** X15: the gate raises [ZeroDivisionError] exactly on an image without
    rows ([width / height] with height 0), whatever the thresholds. *)
Theorem X15_gate_raises_on_no_rows (pano : ndarray) (r mb : float) :
  validate pano r mb = Err ZeroDivisionError <-> image_height pano = 0.
Proof.
  unfold validate_panorama_quality, image_height.
  destruct (shape2 pano) as [h w] eqn:Hshape. cbn [fst].
  unfold py_int_truediv. destruct (decide (h = 0)) as [Hh|Hh].
  - split; [intros _; exact Hh|reflexivity].
  - cbn [mbind result_bind]. split; [|contradiction].
    destruct (_ <? r)%float; [discriminate|].
    destruct pano as [rows|rows]; cbn [mbind result_bind cvtColor_BGR2GRAY].
    + discriminate.
    + destruct (decide (concat rows = [])); discriminate.
Qed.

End QualityGateMore.

Lemma X14_gate_monotone_witness :
  validate_panorama_quality blue_channel wide_gray 1 20 = Ok true.
Proof.
  apply (X14_gate_monotone blue_channel wide_gray 1.2 1 15 20); reflexivity.
Defined.

(** ** Export loop and result record *)

Lemma StronglySorted_lookup_lt (l : list Z) (i j : nat) (x y : Z) :
  StronglySorted Z.lt l -> (i < j)%nat ->
  l !! i = Some x -> l !! j = Some y -> x < y.
Proof.
  intros Hs. revert i j. induction Hs as [|z l Hs IH Hall];
    intros i j Hij Hi Hj.
  - rewrite lookup_nil in Hi. discriminate.
  - destruct j as [|j]; [lia|]. cbn in Hj. destruct i as [|i].
    + cbn in Hi. injection Hi as <-.
      rewrite Forall_forall in Hall. apply Hall.
      eapply list_elem_of_lookup_2. exact Hj.
    + cbn in Hi. eapply IH; [|exact Hi|exact Hj]. lia.
Qed.

Lemma lookup_map {A B : Type} (f : A -> B) (l : list A) (i : nat) :
  map f l !! i = f <$> l !! i.
Proof. exact (list_lookup_fmap f l i). Qed.

(** Looking a strictly increasing list of positions up in a list sorted by
    frame number gives strictly increasing frame numbers. *)
Lemma sorted_positions_sorted_frames (sampled : list (Z * ndarray))
  (idxs : list nat) (fs : list Z) :
  StronglySorted Z.lt (map fst sampled) ->
  StronglySorted lt idxs ->
  Forall2 (fun (sidx : nat) f => exists img, sampled !! sidx = Some (f, img))
    idxs fs ->
  StronglySorted Z.lt fs.
Proof.
  intros Hsampled Hidxs Hlook. induction Hlook as [|sidx f idxs fs [img Hf] Hrest IH].
  - constructor.
  - apply StronglySorted_inv in Hidxs as [Hidxs Hall].
    constructor; [apply IH; exact Hidxs|].
    apply Forall_forall. intros f' Hf'.
    apply list_elem_of_lookup in Hf' as [n Hn].
    destruct (Forall2_lookup_r _ _ _ _ _ Hrest Hn) as (sidx' & Hs' & [img' Hf'']).
    rewrite Forall_forall in Hall.
    assert (Hlt : (sidx < sidx')%nat).
    { apply Hall. eapply list_elem_of_lookup_2. exact Hs'. }
    eapply (StronglySorted_lookup_lt (map fst sampled) sidx sidx');
      [exact Hsampled|exact Hlt| |].
    + rewrite lookup_map, Hf. reflexivity.
    + rewrite lookup_map, Hf''. reflexivity.
Qed.

Section ExportMore.

Context
  (gray_of_bgr : Z * Z * Z -> Z)
  (laplacian_var : ndarray -> float)
  (pair_motion_metrics :
     ndarray -> ndarray -> string -> result (option MotionSummary))
  (gcs_join : string -> list string -> string)
  (open_video : string -> VideoCapture)
  (fmt_group : nat -> string)
  (fmt_frame : Z -> string)
  (fmt_pano : nat -> string)
  (save_frame_to_gcs : ndarray -> string -> Z -> result string)
  (stitch_group : list ndarray -> string -> float -> result (Z * ndarray))
  (write_and_upload : ndarray -> string -> result string).

Local Abbreviation upload :=
  (upload_frame gcs_join fmt_group fmt_frame save_frame_to_gcs).
Local Abbreviation export :=
  (export_group gray_of_bgr gcs_join fmt_group fmt_frame fmt_pano
     save_frame_to_gcs stitch_group write_and_upload).
Local Abbreviation detect :=
  (detect_pan_groups_from_video gray_of_bgr laplacian_var pair_motion_metrics
     gcs_join open_video fmt_group fmt_frame fmt_pano save_frame_to_gcs
     stitch_group write_and_upload).

Lemma upload_frame_Ok cfg sampled prefix gid (sidx : nat) uri f :
  upload cfg sampled prefix gid sidx = Ok (uri, f) ->
  exists img,
    sampled !! sidx = Some (f, img)
    /\ save_frame_to_gcs img
         (gcs_join prefix ["groups"; fmt_group gid; fmt_frame f])
         (jpeg_quality cfg) = Ok uri.
Proof.
  unfold upload_frame, py_index.
  destruct (sampled !! sidx) as [[f' img]|]; [|discriminate].
  cbn [mbind result_bind].
  destruct (save_frame_to_gcs img _ _) as [u|] eqn:Hsave; [|discriminate].
  cbn. intros [= <- <-]. exists img. split; [reflexivity|exact Hsave].
Qed.

(** A group result, read backwards through the export loop. *)
Lemma export_group_Ok_inv cfg sampled prefix gid d idxs gr :
  export cfg sampled prefix gid (d, idxs) = Ok gr ->
  exists export_idxs exported,
    select_export cfg idxs = Ok export_idxs
    /\ mapM (upload cfg sampled prefix gid) export_idxs = Ok exported
    /\ GroupResult.id gr = gid
    /\ GroupResult.direction gr = (if decide (d = 1) then "right" else "left")
    /\ GroupResult.frame_indices gr = map snd exported
    /\ GroupResult.frame_uris gr = map fst exported.
Proof.
  unfold export_group.
  destruct (select_export cfg idxs) as [export_idxs|] eqn:Hsel;
    [|discriminate].
  cbn [mbind result_bind].
  destruct (mapM _ export_idxs) as [exported|] eqn:Hup; [|discriminate].
  cbn [mbind result_bind].
  destruct (stitch_export _ _ _ _ _ _ _ _ _ _) as [pano_uri|];
    [|discriminate].
  cbn [mbind result_bind]. intros [= <-].
  exists export_idxs, exported. cbn.
  split; [reflexivity|]. split; [exact Hup|]. repeat split; reflexivity.
Qed.

(** A returned result record, read backwards through the pipeline. *)
Lemma detect_Ok_inv path prefix settings res :
  detect path prefix settings = Ok res ->
  exists sampled pm gs,
    sample_frames gray_of_bgr laplacian_var (cfg_update default_cfg settings)
      (frames (open_video path)) 0 [] = Ok sampled
    /\ compute_pair_metrics pair_motion_metrics
         (cfg_update default_cfg settings) sampled = Ok pm
    /\ build_groups (min_group_len (cfg_update default_cfg settings)) pm
       = Ok gs
    /\ Forall2
         (fun (ig : nat * (Z * list nat)) gr =>
            export (cfg_update default_cfg settings) sampled prefix
              ig.1 ig.2 = Ok gr)
         (enumerate1 gs) (Results.groups res).
Proof.
  unfold detect_pan_groups_from_video.
  destruct (negb (isOpened (open_video path))); [discriminate|].
  destruct (sample_frames _ _ _ _ _ _) as [sampled|] eqn:Hs; [|discriminate].
  cbn [mbind result_bind].
  destruct (compute_pair_metrics _ _ sampled) as [pm|] eqn:Hpm;
    [|discriminate].
  cbn [mbind result_bind].
  destruct (build_groups _ pm) as [gs|] eqn:Hgs; [|discriminate].
  cbn [mbind result_bind].
  destruct (mapM _ (enumerate1 gs)) as [results|] eqn:Hres; [|discriminate].
  cbn [mbind result_bind]. intros [= <-]. cbn [Results.groups].
  exists sampled, pm, gs. split; [reflexivity|]. split; [exact Hpm|].
  split; [exact Hgs|].
  apply mapM_Ok_Forall2 in Hres.
  eapply Forall2_impl; [exact Hres|]. intros [gid grp] gr Hgr. exact Hgr.
Qed.




(** X17: a group result lists, in export order, the original frame number
    of every selected position and the location the persistence capability
    returned for that frame, saved under
    [groups/<group name>/<frame name>] below the output prefix at the
    configured JPEG quality. *)
Theorem X17_group_result_lists_saved_frames cfg sampled prefix gid d idxs gr :
  export cfg sampled prefix gid (d, idxs) = Ok gr ->
  exists export_idxs,
    select_export cfg idxs = Ok export_idxs
    /\ Forall2
         (fun (sidx : nat) f => exists img, sampled !! sidx = Some (f, img))
         export_idxs (GroupResult.frame_indices gr)
    /\ Forall2
         (fun (sidx : nat) uri =>
            exists f img,
              sampled !! sidx = Some (f, img)
              /\ save_frame_to_gcs img
                   (gcs_join prefix ["groups"; fmt_group gid; fmt_frame f])
                   (jpeg_quality cfg) = Ok uri)
         export_idxs (GroupResult.frame_uris gr).
Proof.
  intros Hgr. apply export_group_Ok_inv in Hgr
    as (export_idxs & exported & Hsel & Hup & _ & _ & -> & ->).
  exists export_idxs. split; [exact Hsel|].
  apply mapM_Ok_Forall2 in Hup.
  split.
  - clear Hsel. induction Hup as [|sidx [uri f] l k Hx _ IH];
      cbn [map fst snd]; [constructor|]. constructor; [|exact IH].
    apply upload_frame_Ok in Hx as (img & Hlook & _). eauto.
  - clear Hsel. induction Hup as [|sidx [uri f] l k Hx _ IH];
      cbn [map fst snd]; [constructor|]. constructor; [|exact IH].
    apply upload_frame_Ok in Hx as (img & Hlook & Hsave). eauto.
Qed.

Lemma exported_frames_lookup cfg sampled prefix gid idxs exported :
  mapM (upload cfg sampled prefix gid) idxs = Ok exported ->
  Forall2 (fun (sidx : nat) f => exists img, sampled !! sidx = Some (f, img))
    idxs (map snd exported).
Proof.
  intros Hup. apply mapM_Ok_Forall2 in Hup.
  induction Hup as [|sidx [uri f] l k Hx _ IH]; cbn [map fst snd];
    [constructor|]. constructor; [|exact IH].
  apply upload_frame_Ok in Hx as (img & Hlook & _). eauto.
Qed.

(** X18: in a returned record every group result has at least two frame
    numbers, as many locations as frame numbers, and its frame numbers are
    strictly increasing frames of the video that are multiples of
    [sample_every]. *)
Theorem X18_result_frames_are_sampled_frames path prefix settings res :
  detect path prefix settings = Ok res ->
  Forall
    (fun gr =>
       StronglySorted Z.lt (GroupResult.frame_indices gr)
       /\ (2 <= length (GroupResult.frame_indices gr))%nat
       /\ length (GroupResult.frame_uris gr)
          = length (GroupResult.frame_indices gr)
       /\ Forall
            (fun f =>
               0 <= f < Z.of_nat (length (frames (open_video path)))
               /\ f mod sample_every (cfg_update default_cfg settings) = 0)
            (GroupResult.frame_indices gr))
    (Results.groups res).
Proof.
  intros Hres.
  apply detect_Ok_inv in Hres as (sampled & pm & gs & Hs & Hpm & Hgs & Hall).
  set (cfg := cfg_update default_cfg settings) in *.
  apply sample_frames_appends in Hs as (new & Hnew & Hkeeps & Hsorted).
  cbn [app] in Hnew. subst new.
  apply compute_pair_metrics_shape in Hpm as [Hlen _].
  apply build_groups_from_inv in Hgs as [Hranges _]; [|apply groups_inv_nil].
  rewrite Forall_forall in Hranges.
  apply Forall_forall. intros gr Hin.
  apply list_elem_of_lookup in Hin as [n Hn].
  destruct (Forall2_lookup_r _ _ _ _ _ Hall Hn) as ([gid [d g]] & Hig & Hgr).
  cbn [fst snd] in Hgr.
  assert (Hg : (d, g) ∈ gs).
  { unfold enumerate1 in Hig. apply lookup_zip_with_Some in Hig
      as (gid' & grp & [= <- <-] & _ & Hgrp).
    eapply list_elem_of_lookup_2. exact Hgrp. }
  destruct (Hranges _ Hg) as [Hrange Hbound]. cbn [snd] in *.
  apply export_group_Ok_inv in Hgr
    as (export_idxs & exported & Hsel & Hup & _ & _ & Hfi & Hfu).
  destruct (select_export_of_range cfg g Hrange)
    as (out & Hout & Htwo & _ & _ & Hsub).
  rewrite Hsel in Hout. injection Hout as <-.
  pose proof (exported_frames_lookup _ _ _ _ _ _ Hup) as Hlook.
  rewrite Hfi, Hfu, !length_map.
  assert (Hlenexp : length exported = length export_idxs).
  { eapply mapM_Ok_length. exact Hup. }
  split; [|split; [lia|split; [reflexivity|]]].
  - eapply sorted_positions_sorted_frames; [exact Hsorted| |exact Hlook].
    eapply sublist_StronglySorted_lt; [exact Hsub|].
    destruct Hrange as (i & k & _ & ->). apply StronglySorted_lt_seq.
  - apply Forall_forall. intros f Hf.
    apply list_elem_of_lookup in Hf as [j Hj].
    destruct (Forall2_lookup_r _ _ _ _ _ Hlook Hj) as (sidx & _ & [img Hsampled]).
    assert (Hmem : (f, img) ∈ sampled)
      by (eapply list_elem_of_lookup_2; exact Hsampled).
    apply Hkeeps in Hmem as (Hle & Hstream & Hmod & _).
    cbn [fst snd] in *. rewrite Z.sub_0_r in Hstream.
    apply lookup_lt_Some in Hstream. split; [lia|exact Hmod].
Qed.

(** X19: with stitching off the stitcher and the panorama upload play no
    part: the group result is the same for any two of them, and it has no
    [pano_uri]. *)
Theorem X19_stitch_off_ignores_stitcher cfg sampled prefix gid grp
  (stitch_group' : list ndarray -> string -> float -> result (Z * ndarray))
  (write_and_upload' : ndarray -> string -> result string) :
  stitch cfg = false ->
  export cfg sampled prefix gid grp
  = export_group gray_of_bgr gcs_join fmt_group fmt_frame fmt_pano
      save_frame_to_gcs stitch_group' write_and_upload' cfg sampled prefix
      gid grp
  /\ forall gr, export cfg sampled prefix gid grp = Ok gr ->
                GroupResult.pano_uri gr = None.
Proof.
  intros Hoff. destruct grp as [d idxs]. unfold export_group, stitch_export.
  rewrite Hoff. split; [reflexivity|].
  intros gr. destruct (select_export cfg idxs); [|discriminate].
  cbn [mbind result_bind]. destruct (mapM _ _); [|discriminate].
  cbn [mbind result_bind]. intros [= <-]. reflexivity.
Qed.

Lemma mapM_Err_first {A B : Type} (f : A -> result B) (pre post : list A)
  (x : A) (e : py_exception) :
  Forall (fun a => exists b, f a = Ok b) pre -> f x = Err e ->
  mapM f (pre ++ x :: post) = Err e.
Proof.
  intros Hpre Hx. induction Hpre as [|a pre [b Ha] _ IH]; cbn.
  - rewrite Hx. reflexivity.
  - rewrite Ha. cbn. rewrite IH. reflexivity.
Qed.

(** X20: a persistence failure is fatal to the group: when saving one of
    the selected frames raises, after the frames before it were saved, the
    export of the group raises the same exception; no group result is
    produced, and the stitcher is not reached. *)
Theorem X20_persistence_failure_is_fatal cfg sampled prefix gid d idxs
  (pre post : list nat) (sidx : nat) (e : py_exception) :
  select_export cfg idxs = Ok (pre ++ sidx :: post) ->
  Forall (fun s => exists r, upload cfg sampled prefix gid s = Ok r) pre ->
  upload cfg sampled prefix gid sidx = Err e ->
  export cfg sampled prefix gid (d, idxs) = Err e.
Proof.
  intros Hsel Hpre Hfail. unfold export_group. rewrite Hsel.
  cbn [mbind result_bind].
  rewrite (mapM_Err_first _ pre post sidx e Hpre Hfail). reflexivity.
Qed.

(** X21: when the video opens and fewer than two frames survive sampling
    there is no pair to analyse: the pipeline returns a record without
    groups, whatever the thresholds. *)
Theorem X21_fewer_than_two_frames path prefix settings sampled :
  isOpened (open_video path) = true ->
  sample_frames gray_of_bgr laplacian_var (cfg_update default_cfg settings)
    (frames (open_video path)) 0 [] = Ok sampled ->
  (length sampled <= 1)%nat ->
  exists res,
    detect path prefix settings = Ok res /\ Results.groups res = [].
Proof.
  intros Hopen Hs Hlen. unfold detect_pan_groups_from_video.
  rewrite Hopen. cbn [negb]. rewrite Hs. cbn [mbind result_bind].
  unfold compute_pair_metrics.
  replace (length sampled - 1)%nat with 0%nat by lia.
  cbn [seq mapM mret result_ret mbind result_bind].
  unfold build_groups. rewrite build_groups_from_done by (cbn; lia).
  cbn. eexists. split; reflexivity.
Qed.

End ExportMore.

Lemma detect_thirty_frames_result :
  detect_pan_groups_from_video blue_channel always_sharp always_pan_right
    join_slash thirty_frames group_name frame_name pano_name echo_save
    failing_stitch echo_upload "in.mp4" "out/" settings_stitch_only
  = Ok thirty_frames_result.
Proof. vm_compute. reflexivity. Qed.


Lemma X17_group_result_lists_saved_frames_witness :
  exists export_idxs,
    select_export cfg_stitch_on [0; 1; 2]%nat = Ok export_idxs
    /\ Forall2
         (fun (sidx : nat) f => exists img, sampled3 !! sidx = Some (f, img))
         export_idxs (GroupResult.frame_indices group3_result)
    /\ Forall2
         (fun (sidx : nat) uri =>
            exists f img,
              sampled3 !! sidx = Some (f, img)
              /\ echo_save img
                   (join_slash "out/" ["groups"; group_name 1; frame_name f])
                   (jpeg_quality cfg_stitch_on) = Ok uri)
         export_idxs (GroupResult.frame_uris group3_result).
Proof.
  apply (X17_group_result_lists_saved_frames blue_channel join_slash
           group_name frame_name pano_name echo_save failing_stitch
           echo_upload cfg_stitch_on sampled3 "out/" 1 1 [0; 1; 2]%nat
           group3_result).
  reflexivity.
Defined.

Lemma X18_result_frames_are_sampled_frames_witness :
  Forall
    (fun gr =>
       StronglySorted Z.lt (GroupResult.frame_indices gr)
       /\ (2 <= length (GroupResult.frame_indices gr))%nat
       /\ length (GroupResult.frame_uris gr)
          = length (GroupResult.frame_indices gr)
       /\ Forall
            (fun f =>
               0 <= f < Z.of_nat (length (frames (thirty_frames "in.mp4")))
               /\ f mod sample_every
                          (cfg_update default_cfg settings_stitch_only) = 0)
            (GroupResult.frame_indices gr))
    (Results.groups thirty_frames_result).
Proof.
  exact (X18_result_frames_are_sampled_frames blue_channel always_sharp
           always_pan_right join_slash thirty_frames group_name frame_name
           pano_name echo_save failing_stitch echo_upload "in.mp4" "out/"
           settings_stitch_only thirty_frames_result
           detect_thirty_frames_result).
Defined.

Lemma X19_stitch_off_ignores_stitcher_witness :
  export_group blue_channel join_slash group_name frame_name pano_name
    echo_save failing_stitch echo_upload default_cfg sampled3 "out/" 1
    (1, [0; 1; 2]%nat)
  = export_group blue_channel join_slash group_name frame_name pano_name
      echo_save (fun _ _ _ => Ok (Stitcher_OK, wide_gray)) echo_upload
      default_cfg sampled3 "out/" 1 (1, [0; 1; 2]%nat).
Proof.
  refine (proj1 (X19_stitch_off_ignores_stitcher blue_channel join_slash
                   group_name frame_name pano_name echo_save failing_stitch
                   echo_upload default_cfg sampled3 "out/" 1
                   (1, [0; 1; 2]%nat) _ _ _)).
  reflexivity.
Defined.

Lemma X20_persistence_failure_is_fatal_witness :
  export_group blue_channel join_slash group_name frame_name pano_name
    failing_save failing_stitch echo_upload default_cfg sampled3 "out/" 1
    (1, [0; 1; 2]%nat)
  = Err (ExternalError "upload failed").
Proof.
  apply (X20_persistence_failure_is_fatal blue_channel join_slash group_name
           frame_name pano_name failing_save failing_stitch echo_upload
           default_cfg sampled3 "out/" 1 1 [0; 1; 2]%nat [] [2%nat] 0%nat).
  - reflexivity.
  - constructor.
  - reflexivity.
Defined.

Lemma X21_fewer_than_two_frames_witness :
  exists res,
    detect_pan_groups_from_video blue_channel always_sharp always_pan_right
      join_slash one_frame group_name frame_name pano_name echo_save
      failing_stitch echo_upload "in.mp4" "out/" Settings.empty = Ok res
    /\ Results.groups res = [].
Proof.
  apply (X21_fewer_than_two_frames blue_channel always_sharp always_pan_right
           join_slash one_frame group_name frame_name pano_name echo_save
           failing_stitch echo_upload "in.mp4" "out/" Settings.empty
           [(0, bgr_frame)]).
  - reflexivity.
  - reflexivity.
  - cbn. lia.
Defined.

(** ** The URI helpers *)

Example parse_gcs_uri_object :
  parse_gcs_uri "gs://my-bucket/videos/clip.mp4"
  = inr ("my-bucket", "videos/clip.mp4").
Proof. reflexivity. Qed.

Example parse_gcs_uri_bucket_only :
  parse_gcs_uri "gs://my-bucket" = inr ("my-bucket", "").
Proof. reflexivity. Qed.

Example parse_gcs_uri_local :
  parse_gcs_uri "output/run1"
  = inl (ValueError "Expected GCS URI starting with gs://").
Proof. reflexivity. Qed.

Example gcs_join_frame :
  gcs_join "gs://my-bucket/outputs/run123/"
    ["groups"; "group001"; "frame_0000027.jpg"]
  = inr "gs://my-bucket/outputs/run123/groups/group001/frame_0000027.jpg".
Proof. reflexivity. Qed.

Example gcs_join_local :
  gcs_join "output" ["groups"; "group001"; "frame_0000027.jpg"]
  = inr "output/groups/group001/frame_0000027.jpg".
Proof. reflexivity. Qed.

Lemma append_cons (c : Ascii.ascii) (p s : string) :
  String.append (String c p) s = String c (String.append p s).
Proof. reflexivity. Qed.

Lemma append_empty_l (s : string) : String.append EmptyString s = s.
Proof. reflexivity. Qed.

Lemma prefix_append (p s : string) : String.prefix p (String.append p s) = true.
Proof.
  induction p as [|c p IH].
  - rewrite append_empty_l. destruct s; reflexivity.
  - rewrite append_cons. cbn [String.prefix].
    destruct (Ascii.ascii_dec c c); [exact IH|contradiction].
Qed.

Lemma drop_string_append (p s : string) :
  drop_string (String.length p) (String.append p s) = s.
Proof.
  induction p as [|c p IH]; [reflexivity|].
  rewrite append_cons. cbn [String.length drop_string]. exact IH.
Qed.

Lemma prefix_decompose (p s : string) :
  String.prefix p s = true ->
  s = String.append p (drop_string (String.length p) s).
Proof.
  revert s. induction p as [|c p IH]; intros s.
  - intros _. reflexivity.
  - destruct s as [|c' s]; [discriminate|]. cbn [String.prefix].
    destruct (Ascii.ascii_dec c c') as [<-|]; [|discriminate].
    intros Hp. rewrite append_cons. cbn [String.length drop_string].
    f_equal. apply IH. exact Hp.
Qed.

Lemma partition_first_at_prefix (sep s : string) :
  String.prefix sep s = true ->
  partition_first sep s
  = Some (EmptyString, drop_string (String.length sep) s).
Proof. intros Hp. destruct s; cbn [partition_first]; rewrite Hp; reflexivity. Qed.

Lemma prefix_slash (c : Ascii.ascii) (s : string) :
  String.prefix "/" (String c s) = is_slash c.
Proof.
  cbn [String.prefix]. unfold is_slash.
  destruct (Ascii.ascii_dec _ c) as [<-|Hne].
  - destruct s; reflexivity.
  - symmetry. apply Ascii.eqb_neq. intros ->. apply Hne. reflexivity.
Qed.

Lemma is_slash_true (c : Ascii.ascii) : is_slash c = true -> c = slash.
Proof. apply Ascii.eqb_eq. Qed.

(** Splitting at the first slash: the part before it has no slash. *)
Lemma partition_first_slash_Some (s before after : string) :
  partition_first "/" s = Some (before, after) ->
  no_slash before
  /\ s = String.append before (String slash after).
Proof.
  revert before after. induction s as [|c s IH]; intros before after.
  - cbn. discriminate.
  - cbn [partition_first]. rewrite prefix_slash.
    destruct (is_slash c) eqn:Hc.
    + intros [= <- <-]. split; [exact I|].
      apply is_slash_true in Hc. subst c. reflexivity.
    + destruct (partition_first "/" s) as [[b a]|]; [|discriminate].
      intros [= <- <-]. destruct (IH b a eq_refl) as [Hb ->].
      split; [split; assumption|reflexivity].
Qed.

Lemma partition_first_slash_None (s : string) :
  partition_first "/" s = None <-> no_slash s.
Proof.
  induction s as [|c s IH].
  - cbn. tauto.
  - cbn [partition_first no_slash]. rewrite prefix_slash.
    destruct (is_slash c) eqn:Hc.
    + split; [discriminate|]. intros [Hf _]. discriminate.
    + destruct (partition_first "/" s) as [[b a]|].
      * split; [discriminate|]. intros [_ Hs]. apply IH in Hs. discriminate.
      * split; [|reflexivity]. intros _. split; [reflexivity|].
        apply IH. reflexivity.
Qed.

Lemma partition_first_slash_append (before after : string) :
  no_slash before ->
  partition_first "/" (String.append before (String slash after))
  = Some (before, after).
Proof.
  induction before as [|c b IH]; intros Hb.
  - rewrite append_empty_l. cbn [partition_first]. rewrite prefix_slash.
    reflexivity.
  - destruct Hb as [Hc Hb]. rewrite append_cons. cbn [partition_first].
    rewrite prefix_slash, Hc, (IH Hb). reflexivity.
Qed.

(** The parser after the prefix test, on the text behind [gs://]. *)
Lemma parse_gcs_uri_rest (rest : string) :
  parse_gcs_uri (String.append "gs://" rest)
  = match partition_first "/" rest with
    | Some (bucket, blob) => inr (bucket, blob)
    | None => inr (rest, EmptyString)
    end.
Proof.
  unfold parse_gcs_uri. rewrite prefix_append. cbn [negb].
  unfold py_split_once at 1.
  rewrite partition_first_at_prefix by apply prefix_append.
  rewrite drop_string_append. unfold py_split_once.
  destruct (partition_first "/" rest) as [[b a]|]; reflexivity.
Qed.

Lemma parse_gcs_uri_gs (uri : string) :
  String.prefix "gs://" uri = true ->
  exists bucket blob,
    parse_gcs_uri uri = inr (bucket, blob)
    /\ no_slash bucket
    /\ (uri = String.append "gs://"
                (String.append bucket (String.append "/" blob))
        \/ (uri = String.append "gs://" bucket /\ blob = EmptyString)).
Proof.
  intros Hp. apply prefix_decompose in Hp.
  remember (drop_string (String.length "gs://") uri) as rest eqn:Hdrop.
  clear Hdrop. subst uri. rewrite parse_gcs_uri_rest.
  destruct (partition_first "/" rest) as [[bucket blob]|] eqn:Hrest.
  - apply partition_first_slash_Some in Hrest as [Hb Hr].
    exists bucket, blob. split; [reflexivity|]. split; [exact Hb|].
    left. rewrite Hr. reflexivity.
  - apply partition_first_slash_None in Hrest.
    exists rest, EmptyString. split; [reflexivity|]. split; [exact Hrest|].
    right. split; reflexivity.
Qed.

(** X22: [parse_gcs_uri] raises [ValueError] exactly when the URI does not
    start with [gs://]; otherwise it returns a bucket without any slash and
    a blob path that put the URI back together: [gs://bucket/blob], or
    [gs://bucket] with an empty blob path. *)
Theorem X22_parse_gcs_uri_decomposes (uri : string) :
  (String.prefix "gs://" uri = false ->
   parse_gcs_uri uri
   = inl (ValueError "Expected GCS URI starting with gs://"))
  /\ (String.prefix "gs://" uri = true ->
      exists bucket blob,
        parse_gcs_uri uri = inr (bucket, blob)
        /\ no_slash bucket
        /\ (uri = String.append "gs://"
                    (String.append bucket (String.append "/" blob))
            \/ (uri = String.append "gs://" bucket /\ blob = EmptyString))).
Proof.
  split.
  - intros Hp. unfold parse_gcs_uri. rewrite Hp. reflexivity.
  - apply parse_gcs_uri_gs.
Qed.

Lemma X22_parse_gcs_uri_decomposes_witness :
  exists bucket blob,
    parse_gcs_uri "gs://my-bucket/videos/clip.mp4" = inr (bucket, blob)
    /\ no_slash bucket
    /\ ("gs://my-bucket/videos/clip.mp4"
        = String.append "gs://"
            (String.append bucket (String.append "/" blob))
        \/ ("gs://my-bucket/videos/clip.mp4" = String.append "gs://" bucket
            /\ blob = EmptyString)).
Proof.
  apply (proj2 (X22_parse_gcs_uri_decomposes "gs://my-bucket/videos/clip.mp4")).
  reflexivity.
Defined.

(** X23: round trip: for a bucket name without a slash, parsing
    [gs://bucket/blob] gives back the bucket and the blob path, whatever the
    blob path, and parsing [gs://bucket] gives the bucket and the empty
    path. *)
Theorem X23_parse_gcs_uri_round_trip (bucket blob : string) :
  no_slash bucket ->
  parse_gcs_uri
    (String.append "gs://" (String.append bucket (String.append "/" blob)))
  = inr (bucket, blob)
  /\ parse_gcs_uri (String.append "gs://" bucket) = inr (bucket, EmptyString).
Proof.
  intros Hb. rewrite !parse_gcs_uri_rest. split.
  - change (String.append "/" blob) with (String slash blob).
    rewrite (partition_first_slash_append bucket blob Hb). reflexivity.
  - apply partition_first_slash_None in Hb. rewrite Hb. reflexivity.
Qed.

Lemma X23_parse_gcs_uri_round_trip_witness :
  parse_gcs_uri
    (String.append "gs://"
       (String.append "my-bucket" (String.append "/" "a/b.jpg")))
  = inr ("my-bucket", "a/b.jpg").
Proof.
  refine (proj1 (X23_parse_gcs_uri_round_trip "my-bucket" "a/b.jpg" _)).
  cbn. repeat split.
Defined.

(** X24: for a [gs://] prefix [gcs_join] never raises, and what it returns
    is a URI of the same bucket whose blob path is the slash-stripped base
    and parts joined by single slashes. *)
Theorem X24_gcs_join_stays_in_bucket (prefix : string) (parts : list string) :
  String.prefix "gs://" prefix = true ->
  exists bucket base out,
    parse_gcs_uri prefix = inr (bucket, base)
    /\ gcs_join prefix parts = inr out
    /\ parse_gcs_uri out
       = inr (bucket,
              String.concat "/"
                (map strip_slash
                   (if String.eqb base "" then parts else base :: parts))).
Proof.
  intros Hp. destruct (parse_gcs_uri_gs prefix Hp)
    as (bucket & base & Hparse & Hb & _).
  unfold gcs_join. rewrite Hp, Hparse. exists bucket, base.
  remember (String.concat "/" _) as joined eqn:Hjoined. clear Hjoined.
  destruct (String.eqb joined "") eqn:Hj.
  - apply String.eqb_eq in Hj. eexists. split; [reflexivity|].
    split; [reflexivity|]. rewrite Hj, parse_gcs_uri_rest.
    apply partition_first_slash_None in Hb. rewrite Hb. reflexivity.
  - eexists. split; [reflexivity|]. split; [reflexivity|].
    rewrite parse_gcs_uri_rest.
    change (String.append "/" joined) with (String slash joined).
    rewrite (partition_first_slash_append bucket joined Hb). reflexivity.
Qed.

Lemma X24_gcs_join_stays_in_bucket_witness :
  exists bucket base out,
    parse_gcs_uri "gs://my-bucket/outputs/run123/" = inr (bucket, base)
    /\ gcs_join "gs://my-bucket/outputs/run123/" ["groups"; "group001"]
       = inr out
    /\ parse_gcs_uri out
       = inr (bucket,
              String.concat "/"
                (map strip_slash
                   (if String.eqb base "" then ["groups"; "group001"]
                    else base :: ["groups"; "group001"]))).
Proof.
  apply (X24_gcs_join_stays_in_bucket "gs://my-bucket/outputs/run123/"
           ["groups"; "group001"]).
  reflexivity.
Defined.

(** ** The HTTP entry point *)

Section HandlerProperties.

Context {value results : Type}
  (empty_dict : value)
  (download_gcs_to_temp : value -> Handler.exn + string)
  (detect : string -> value -> value -> Handler.exn + results)
  (remove_temp : string -> Handler.exn + unit).

Local Abbreviation extract_pans :=
  (Handler.extract_pans empty_dict download_gcs_to_temp detect remove_temp).
Local Abbreviation detect_then_clean :=
  (Handler.detect_then_clean detect remove_temp).

Lemma detect_then_clean_Ok path prefix settings r :
  detect_then_clean path prefix settings = inr r <->
  detect path prefix settings = inr r /\ exists u, remove_temp path = inr u.
Proof.
  unfold Handler.detect_then_clean.
  destruct (detect path prefix settings) as [e|r'];
    destruct (remove_temp path) as [e'|u]; split.
  - discriminate.
  - intros [[=] _].
  - discriminate.
  - intros [[=] _].
  - discriminate.
  - intros [_ [? [=]]].
  - intros [= <-]. eauto.
  - intros [[= <-] _]. reflexivity.
Qed.

Lemma payload_object_or_not (p : Handler.payload (value := value)) :
  (exists d, p = Handler.JObject d) \/ (forall d, p <> Handler.JObject d).
Proof.
  destruct p; try (right; discriminate). left. eauto.
Qed.

(** The handler on a POST whose body parsed to an object. *)
Lemma extract_pans_object (req : Handler.request (value := value))
  (d : gmap string value) :
  Handler.method req = "POST" ->
  Handler.get_json req = inr (Handler.JObject d) ->
  extract_pans req =
  match d !! "video_gcs_uri", d !! "output_prefix" with
  | Some uri, Some prefix =>
    match download_gcs_to_temp uri with
    | inl e => inr (Handler.error (Handler.str e), 500)
    | inr path =>
      match detect_then_clean path prefix
              (default empty_dict (d !! "settings")) with
      | inl e => inr (Handler.error (Handler.str e), 500)
      | inr r => inr (Handler.jsonify r, 200)
      end
    end
  | _, _ =>
    inr (Handler.error
           "Missing required fields: video_gcs_uri, output_prefix", 400)
  end.
Proof.
  intros Hm Hj. unfold Handler.extract_pans. rewrite Hm, Hj.
  cbn [String.eqb negb]. change ("POST" =? "POST")%string with true.
  cbn [negb Handler.truthy Handler.keys Handler.getitem].
  destruct (negb (bool_decide (d = ∅)));
    destruct (d !! "video_gcs_uri"); destruct (d !! "output_prefix");
    reflexivity.
Qed.

(** The handler on a POST whose body parsed to something else. *)
Lemma extract_pans_non_object (req : Handler.request (value := value))
  (p : Handler.payload) :
  Handler.method req = "POST" ->
  Handler.get_json req = inr p ->
  (forall d, p <> Handler.JObject d) ->
  extract_pans req =
  if Handler.truthy p
  then inr (Handler.error
              (String.append "Invalid JSON: "
                 "object has no attribute 'keys'"), 400)
  else inl (Handler.TypeError "object is not subscriptable").
Proof.
  intros Hm Hj Hp. unfold Handler.extract_pans. rewrite Hm, Hj.
  change ("POST" =? "POST")%string with true. cbn [negb].
  destruct p as [| b | q | s | items | d];
    try (exfalso; eapply Hp; reflexivity);
    cbn [Handler.truthy Handler.keys Handler.getitem Handler.str].
  - reflexivity.
  - destruct b; reflexivity.
  - destruct (negb (Qeq_bool q 0)); reflexivity.
  - destruct (negb (String.eqb s "")); reflexivity.
  - destruct items; reflexivity.
Qed.

(** X25: the handler answers 405 to every method other than POST; it
    answers 200 exactly when the POST body is a JSON object that has
    ["video_gcs_uri"] and ["output_prefix"] and the download, the detection
    and the removal of the temporary file all succeed, and then with the
    detection's result; every other response is a 400 or a 500. *)
Theorem X25_extract_pans_status (req : Handler.request (value := value)) :
  (Handler.method req <> "POST" ->
   extract_pans req = inr (Handler.error "Use POST with JSON.", 405))
  /\ (forall rep,
        extract_pans req = inr (rep, 200) <->
        Handler.method req = "POST"
        /\ exists d uri prefix path r,
             Handler.get_json req = inr (Handler.JObject d)
             /\ d !! "video_gcs_uri" = Some uri
             /\ d !! "output_prefix" = Some prefix
             /\ download_gcs_to_temp uri = inr path
             /\ detect path prefix (default empty_dict (d !! "settings"))
                = inr r
             /\ (exists u, remove_temp path = inr u)
             /\ rep = Handler.jsonify r)
  /\ (forall rep status,
        extract_pans req = inr (rep, status) ->
        status = 200 \/ status = 400 \/ status = 405 \/ status = 500).
Proof.
  destruct (String.eqb (Handler.method req) "POST") eqn:Hm.
  - apply String.eqb_eq in Hm.
    split; [intros Hne; contradiction|].
    destruct (Handler.get_json req) as [e|p] eqn:Hj.
    { assert (Hex : extract_pans req
                    = inr (Handler.error
                             (String.append "Invalid JSON: " (Handler.str e)),
                           400)).
      { unfold Handler.extract_pans. rewrite Hm, Hj. reflexivity. }
      rewrite Hex. split.
      - intros rep. split; [discriminate|].
        intros (_ & d & uri & prefix & path & r & [=] & _).
      - intros rep status [= <- <-]. auto. }
    destruct (payload_object_or_not p) as [[d ->] | Hnot].
    + rewrite (extract_pans_object req d Hm Hj). split.
      * intros rep. split.
        -- destruct (d !! "video_gcs_uri") as [uri|] eqn:Hu; [|discriminate].
           destruct (d !! "output_prefix") as [prefix|] eqn:Hp;
             [|discriminate].
           destruct (download_gcs_to_temp uri) as [e|path] eqn:Hd;
             [discriminate|].
           destruct (detect_then_clean path prefix _) as [e|r] eqn:Hdc;
             [discriminate|].
           intros [= <-]. apply detect_then_clean_Ok in Hdc as [Hdet Hrm].
           split; [exact Hm|]. exists d, uri, prefix, path, r.
           repeat split; try reflexivity; assumption.
        -- intros (_ & d' & uri & prefix & path & r & [= <-] & -> & -> & ->
                   & Hdet & Hrm & ->).
           rewrite (proj2 (detect_then_clean_Ok _ _ _ _) (conj Hdet Hrm)).
           reflexivity.
      * intros rep status.
        destruct (d !! "video_gcs_uri") as [uri|];
          [|intros [= <- <-]; auto].
        destruct (d !! "output_prefix") as [prefix|];
          [|intros [= <- <-]; auto].
        destruct (download_gcs_to_temp uri) as [e|path];
          [intros [= <- <-]; auto|].
        destruct (detect_then_clean path prefix _);
          intros [= <- <-]; auto.
    + rewrite (extract_pans_non_object req p Hm Hj Hnot). split.
      * intros rep. split.
        -- destruct (Handler.truthy p); discriminate.
        -- intros (_ & d & uri & prefix & path & r & [= ->] & _).
           exfalso. eapply Hnot. reflexivity.
      * intros rep status. destruct (Handler.truthy p); [|discriminate].
        intros [= <- <-]. auto.
  - assert (Hex : extract_pans req
                  = inr (Handler.error "Use POST with JSON.", 405)).
    { unfold Handler.extract_pans. rewrite Hm. reflexivity. }
    rewrite Hex. split; [reflexivity|]. split.
    + intros rep. split; [discriminate|].
      intros [Hpost _]. apply String.eqb_eq in Hpost. congruence.
    + intros rep status [= <- <-]. auto.
Qed.

(** X26: an exception leaves the handler exactly when the request is a POST
    whose body parsed to a false value that is not an object ([null],
    [false], [0], the empty string, the empty array); the exception is the
    [TypeError] of subscripting that value, which only the [KeyError] clause
    guards. *)
Theorem X26_falsy_body_escapes (req : Handler.request (value := value))
  (e : Handler.exn) :
  extract_pans req = inl e <->
  Handler.method req = "POST"
  /\ exists p, Handler.get_json req = inr p
               /\ Handler.falsy_non_object p
               /\ e = Handler.TypeError "object is not subscriptable".
Proof.
  destruct (String.eqb (Handler.method req) "POST") eqn:Hm.
  - apply String.eqb_eq in Hm.
    destruct (Handler.get_json req) as [e0|p] eqn:Hj.
    { split.
      - unfold Handler.extract_pans. rewrite Hm, Hj. discriminate.
      - intros (_ & p & [=] & _). }
    destruct (payload_object_or_not p) as [[d ->] | Hnot].
    + rewrite (extract_pans_object req d Hm Hj). split.
      * destruct (d !! "video_gcs_uri") as [uri|]; [|discriminate].
        destruct (d !! "output_prefix") as [prefix|]; [|discriminate].
        destruct (download_gcs_to_temp uri) as [e1|path]; [discriminate|].
        destruct (detect_then_clean path prefix _); discriminate.
      * intros (_ & p & [= <-] & [] & _).
    + rewrite (extract_pans_non_object req p Hm Hj Hnot). split.
      * destruct (Handler.truthy p) eqn:Ht; [discriminate|].
        intros [= <-]. split; [exact Hm|]. exists p.
        repeat split. destruct p; try exact Ht.
        exfalso. eapply Hnot. reflexivity.
      * intros (_ & p' & [= <-] & Hf & ->).
        destruct p; try (exfalso; exact Hf);
          unfold Handler.falsy_non_object in Hf; rewrite Hf; reflexivity.
  - split.
    + unfold Handler.extract_pans. rewrite Hm. discriminate.
    + intros [Hpost _]. apply String.eqb_eq in Hpost. congruence.
Qed.

End HandlerProperties.

Lemma X25_extract_pans_status_witness :
  Handler.extract_pans "" download_to_tmp detect_echo remove_ok
    post_two_fields
  = inr (Handler.jsonify ["/tmp/v.mp4"; "gs://b/out"; ""], 200).
Proof.
  apply (proj1 (proj2 (X25_extract_pans_status "" download_to_tmp
                         detect_echo remove_ok post_two_fields))).
  split; [reflexivity|].
  exists body_two_fields, "v.mp4"%string, "gs://b/out"%string,
    "/tmp/v.mp4"%string, ["/tmp/v.mp4"; "gs://b/out"; ""]%string.
  repeat split; try reflexivity. exists tt. reflexivity.
Defined.

Lemma X26_falsy_body_escapes_witness :
  Handler.extract_pans "" download_to_tmp detect_echo remove_ok post_null
  = inl (Handler.TypeError "object is not subscriptable").
Proof.
  apply (proj2 (X26_falsy_body_escapes "" download_to_tmp detect_echo
                  remove_ok post_null _)).
  split; [reflexivity|]. exists Handler.JNull.
  repeat split; reflexivity.
Defined.
